(** * Sprite animation engine (js/animation.js): a shallow embedding

    The class [SpriteAnimator] is embedded as a record holding the fields its
    constructor initialises, and every method as a computation in a small
    state-and-exception monad over that record and the part of the browser
    the methods talk to (the clock behind [performance.now()], the animation
    frame callback list, the canvas context and the console).

    Numbers.  A JavaScript number is a binary64 float.  The quantities the
    grid code handles (frame counts, pixel sizes, frame indices: results of
    [parseInt], image dimensions, [Math.floor]/[Math.ceil] results) are
    integers and are embedded in [Z]; the quantities that are fractional in
    the source (timestamps of [performance.now()], [1000 / fps], the frame
    aspect ratio) are embedded in [Q], i.e. with exact instead of rounded
    arithmetic.  [NaN] and the infinities have no counterpart: a division by
    zero, which the source answers with one of them, is marked where it can
    occur.  [null] for [frameWidth]/[frameHeight] is embedded as [0], which
    is what it coerces to both under [!] and in arithmetic.

    The DOM text updates ([displaySpriteInfo], [updateFrameDisplay],
    [updatePerformanceDisplay]) only read the animator and write page text;
    they are embedded as computations without effect on the modelled state. *)

From Stdlib Require Import ZArith QArith Qround Qminmax List Bool Lia Lqa.
Import ListNotations.
From Stdlib Require String Sorted.

Local Open Scope Z_scope.

(** ** JavaScript arithmetic *)

Module JS.

(** [a % b] on integers: the remainder takes the sign of the dividend.
    (For [b = 0] the source yields [NaN]; [Z.rem a 0 = a].) *)
Definition rem (a b : Z) : Z := Z.rem a b.

(** [a / b] on integers: a fractional number.
    (For [b = 0] the source yields an infinity or [NaN]; here [0].) *)
Definition div (a b : Z) : Q := (inject_Z a / inject_Z b)%Q.

Definition floor (x : Q) : Z := Qfloor x.
Definition ceil (x : Q) : Z := Qceiling x.

(** [Math.round]: the nearest integer, halves rounded up. *)
Definition round (x : Q) : Z := Qfloor (x + (1 # 2))%Q.

(** Rounding toward zero, the quotient behind [%]. *)
Definition trunc (x : Q) : Z := Z.quot (Qnum x) (Zpos (Qden x)).

(** [a % b] on fractional numbers. *)
Definition fmod (a b : Q) : Q := (a - b * inject_Z (trunc (a / b)))%Q.

Definition ltb (a b : Q) : bool :=
  match (a ?= b)%Q with Lt => true | _ => false end.
Definition geb (a b : Q) : bool := Qle_bool b a.

Definition max (a b : Q) : Q := Qmax a b.
Definition min (a b : Q) : Q := Qmin a b.

(** The integers [lo, lo+1, ..., hi] visited by
    [for (let i = lo; i <= hi; i++)]. *)
Definition upto (lo hi : Z) : list Z :=
  map (fun k => lo + Z.of_nat k) (seq 0 (Z.to_nat (hi - lo + 1))).

(** [Array.prototype.sort(cmp)]: a stable sort (ECMAScript 2019); [cmp a b]
    is the number the comparison callback returns, negative when [a] has to
    come first. *)
Section Sort.
Context {A : Type} (cmp : A -> A -> Z).

Fixpoint insert (x : A) (l : list A) : list A :=
  match l with
  | [] => [x]
  | y :: l' => if 0 <? cmp x y then y :: insert x l' else x :: l
  end.

Definition sort (l : list A) : list A := fold_right insert [] l.
End Sort.

End JS.

(** ** Data *)

(** [width]/[height] of the canvas element and of the sprite image. *)
Record Dim := mkDim { width : Z; height : Z }.

(** The candidate objects [findBestGridLayout] pushes on [layouts]. *)
Record Layout := mkLayout {
  cols : Z;
  rows : Z;
  frameW : Q;
  frameH : Q;
  aspectRatio : Q;
  score : Z
}.

(** The fields of [this], in the order the constructor initialises them. *)
Record SpriteAnimator := mkSpriteAnimator {
  canvas : Dim;
  spriteImage : Dim;
  frameWidth : Z;
  frameHeight : Z;
  totalFrames : Z;
  framesPerRow : Z;
  framesPerCol : Z;
  currentFrame : Z;
  isPlaying : bool;
  fps : Q;
  frameInterval : Q;
  lastFrameTime : Q;
  actualFps : Z;
  frameCount : Z;
  fpsLastTime : Q;
  animationId : option Z;
  offsetX : Z;
  offsetY : Z;
  spacingX : Z;
  spacingY : Z;
  autoDetect : bool
}.

(** Field updates: [set_f v s] is [s] after [s.f = v]. *)

Definition set_canvas (v : Dim) (s : SpriteAnimator) : SpriteAnimator :=
  mkSpriteAnimator v (spriteImage s) (frameWidth s) (frameHeight s)
    (totalFrames s) (framesPerRow s) (framesPerCol s) (currentFrame s)
    (isPlaying s) (fps s) (frameInterval s) (lastFrameTime s) (actualFps s)
    (frameCount s) (fpsLastTime s) (animationId s) (offsetX s) (offsetY s)
    (spacingX s) (spacingY s) (autoDetect s).

Definition set_spriteImage (v : Dim) (s : SpriteAnimator) : SpriteAnimator :=
  mkSpriteAnimator (canvas s) v (frameWidth s) (frameHeight s) (totalFrames s)
    (framesPerRow s) (framesPerCol s) (currentFrame s) (isPlaying s) (fps s)
    (frameInterval s) (lastFrameTime s) (actualFps s) (frameCount s)
    (fpsLastTime s) (animationId s) (offsetX s) (offsetY s) (spacingX s)
    (spacingY s) (autoDetect s).

Definition set_frameWidth (v : Z) (s : SpriteAnimator) : SpriteAnimator :=
  mkSpriteAnimator (canvas s) (spriteImage s) v (frameHeight s)
    (totalFrames s) (framesPerRow s) (framesPerCol s) (currentFrame s)
    (isPlaying s) (fps s) (frameInterval s) (lastFrameTime s) (actualFps s)
    (frameCount s) (fpsLastTime s) (animationId s) (offsetX s) (offsetY s)
    (spacingX s) (spacingY s) (autoDetect s).

Definition set_frameHeight (v : Z) (s : SpriteAnimator) : SpriteAnimator :=
  mkSpriteAnimator (canvas s) (spriteImage s) (frameWidth s) v (totalFrames s)
    (framesPerRow s) (framesPerCol s) (currentFrame s) (isPlaying s) (fps s)
    (frameInterval s) (lastFrameTime s) (actualFps s) (frameCount s)
    (fpsLastTime s) (animationId s) (offsetX s) (offsetY s) (spacingX s)
    (spacingY s) (autoDetect s).

Definition set_totalFrames (v : Z) (s : SpriteAnimator) : SpriteAnimator :=
  mkSpriteAnimator (canvas s) (spriteImage s) (frameWidth s) (frameHeight s) v
    (framesPerRow s) (framesPerCol s) (currentFrame s) (isPlaying s) (fps s)
    (frameInterval s) (lastFrameTime s) (actualFps s) (frameCount s)
    (fpsLastTime s) (animationId s) (offsetX s) (offsetY s) (spacingX s)
    (spacingY s) (autoDetect s).

Definition set_framesPerRow (v : Z) (s : SpriteAnimator) : SpriteAnimator :=
  mkSpriteAnimator (canvas s) (spriteImage s) (frameWidth s) (frameHeight s)
    (totalFrames s) v (framesPerCol s) (currentFrame s) (isPlaying s) (fps s)
    (frameInterval s) (lastFrameTime s) (actualFps s) (frameCount s)
    (fpsLastTime s) (animationId s) (offsetX s) (offsetY s) (spacingX s)
    (spacingY s) (autoDetect s).

Definition set_framesPerCol (v : Z) (s : SpriteAnimator) : SpriteAnimator :=
  mkSpriteAnimator (canvas s) (spriteImage s) (frameWidth s) (frameHeight s)
    (totalFrames s) (framesPerRow s) v (currentFrame s) (isPlaying s) (fps s)
    (frameInterval s) (lastFrameTime s) (actualFps s) (frameCount s)
    (fpsLastTime s) (animationId s) (offsetX s) (offsetY s) (spacingX s)
    (spacingY s) (autoDetect s).

Definition set_currentFrame (v : Z) (s : SpriteAnimator) : SpriteAnimator :=
  mkSpriteAnimator (canvas s) (spriteImage s) (frameWidth s) (frameHeight s)
    (totalFrames s) (framesPerRow s) (framesPerCol s) v (isPlaying s) (fps s)
    (frameInterval s) (lastFrameTime s) (actualFps s) (frameCount s)
    (fpsLastTime s) (animationId s) (offsetX s) (offsetY s) (spacingX s)
    (spacingY s) (autoDetect s).

Definition set_isPlaying (v : bool) (s : SpriteAnimator) : SpriteAnimator :=
  mkSpriteAnimator (canvas s) (spriteImage s) (frameWidth s) (frameHeight s)
    (totalFrames s) (framesPerRow s) (framesPerCol s) (currentFrame s) v
    (fps s) (frameInterval s) (lastFrameTime s) (actualFps s) (frameCount s)
    (fpsLastTime s) (animationId s) (offsetX s) (offsetY s) (spacingX s)
    (spacingY s) (autoDetect s).

Definition set_fps (v : Q) (s : SpriteAnimator) : SpriteAnimator :=
  mkSpriteAnimator (canvas s) (spriteImage s) (frameWidth s) (frameHeight s)
    (totalFrames s) (framesPerRow s) (framesPerCol s) (currentFrame s)
    (isPlaying s) v (frameInterval s) (lastFrameTime s) (actualFps s)
    (frameCount s) (fpsLastTime s) (animationId s) (offsetX s) (offsetY s)
    (spacingX s) (spacingY s) (autoDetect s).

Definition set_frameInterval (v : Q) (s : SpriteAnimator) : SpriteAnimator :=
  mkSpriteAnimator (canvas s) (spriteImage s) (frameWidth s) (frameHeight s)
    (totalFrames s) (framesPerRow s) (framesPerCol s) (currentFrame s)
    (isPlaying s) (fps s) v (lastFrameTime s) (actualFps s) (frameCount s)
    (fpsLastTime s) (animationId s) (offsetX s) (offsetY s) (spacingX s)
    (spacingY s) (autoDetect s).

Definition set_lastFrameTime (v : Q) (s : SpriteAnimator) : SpriteAnimator :=
  mkSpriteAnimator (canvas s) (spriteImage s) (frameWidth s) (frameHeight s)
    (totalFrames s) (framesPerRow s) (framesPerCol s) (currentFrame s)
    (isPlaying s) (fps s) (frameInterval s) v (actualFps s) (frameCount s)
    (fpsLastTime s) (animationId s) (offsetX s) (offsetY s) (spacingX s)
    (spacingY s) (autoDetect s).

Definition set_actualFps (v : Z) (s : SpriteAnimator) : SpriteAnimator :=
  mkSpriteAnimator (canvas s) (spriteImage s) (frameWidth s) (frameHeight s)
    (totalFrames s) (framesPerRow s) (framesPerCol s) (currentFrame s)
    (isPlaying s) (fps s) (frameInterval s) (lastFrameTime s) v (frameCount s)
    (fpsLastTime s) (animationId s) (offsetX s) (offsetY s) (spacingX s)
    (spacingY s) (autoDetect s).

Definition set_frameCount (v : Z) (s : SpriteAnimator) : SpriteAnimator :=
  mkSpriteAnimator (canvas s) (spriteImage s) (frameWidth s) (frameHeight s)
    (totalFrames s) (framesPerRow s) (framesPerCol s) (currentFrame s)
    (isPlaying s) (fps s) (frameInterval s) (lastFrameTime s) (actualFps s) v
    (fpsLastTime s) (animationId s) (offsetX s) (offsetY s) (spacingX s)
    (spacingY s) (autoDetect s).

Definition set_fpsLastTime (v : Q) (s : SpriteAnimator) : SpriteAnimator :=
  mkSpriteAnimator (canvas s) (spriteImage s) (frameWidth s) (frameHeight s)
    (totalFrames s) (framesPerRow s) (framesPerCol s) (currentFrame s)
    (isPlaying s) (fps s) (frameInterval s) (lastFrameTime s) (actualFps s)
    (frameCount s) v (animationId s) (offsetX s) (offsetY s) (spacingX s)
    (spacingY s) (autoDetect s).

Definition set_animationId (v : option Z) (s : SpriteAnimator) : SpriteAnimator :=
  mkSpriteAnimator (canvas s) (spriteImage s) (frameWidth s) (frameHeight s)
    (totalFrames s) (framesPerRow s) (framesPerCol s) (currentFrame s)
    (isPlaying s) (fps s) (frameInterval s) (lastFrameTime s) (actualFps s)
    (frameCount s) (fpsLastTime s) v (offsetX s) (offsetY s) (spacingX s)
    (spacingY s) (autoDetect s).

Definition set_offsetX (v : Z) (s : SpriteAnimator) : SpriteAnimator :=
  mkSpriteAnimator (canvas s) (spriteImage s) (frameWidth s) (frameHeight s)
    (totalFrames s) (framesPerRow s) (framesPerCol s) (currentFrame s)
    (isPlaying s) (fps s) (frameInterval s) (lastFrameTime s) (actualFps s)
    (frameCount s) (fpsLastTime s) (animationId s) v (offsetY s) (spacingX s)
    (spacingY s) (autoDetect s).

Definition set_offsetY (v : Z) (s : SpriteAnimator) : SpriteAnimator :=
  mkSpriteAnimator (canvas s) (spriteImage s) (frameWidth s) (frameHeight s)
    (totalFrames s) (framesPerRow s) (framesPerCol s) (currentFrame s)
    (isPlaying s) (fps s) (frameInterval s) (lastFrameTime s) (actualFps s)
    (frameCount s) (fpsLastTime s) (animationId s) (offsetX s) v (spacingX s)
    (spacingY s) (autoDetect s).

Definition set_spacingX (v : Z) (s : SpriteAnimator) : SpriteAnimator :=
  mkSpriteAnimator (canvas s) (spriteImage s) (frameWidth s) (frameHeight s)
    (totalFrames s) (framesPerRow s) (framesPerCol s) (currentFrame s)
    (isPlaying s) (fps s) (frameInterval s) (lastFrameTime s) (actualFps s)
    (frameCount s) (fpsLastTime s) (animationId s) (offsetX s) (offsetY s) v
    (spacingY s) (autoDetect s).

Definition set_spacingY (v : Z) (s : SpriteAnimator) : SpriteAnimator :=
  mkSpriteAnimator (canvas s) (spriteImage s) (frameWidth s) (frameHeight s)
    (totalFrames s) (framesPerRow s) (framesPerCol s) (currentFrame s)
    (isPlaying s) (fps s) (frameInterval s) (lastFrameTime s) (actualFps s)
    (frameCount s) (fpsLastTime s) (animationId s) (offsetX s) (offsetY s)
    (spacingX s) v (autoDetect s).

Definition set_autoDetect (v : bool) (s : SpriteAnimator) : SpriteAnimator :=
  mkSpriteAnimator (canvas s) (spriteImage s) (frameWidth s) (frameHeight s)
    (totalFrames s) (framesPerRow s) (framesPerCol s) (currentFrame s)
    (isPlaying s) (fps s) (frameInterval s) (lastFrameTime s) (actualFps s)
    (frameCount s) (fpsLastTime s) (animationId s) (offsetX s) (offsetY s)
    (spacingX s) (spacingY s) v.

(** One [ctx.drawImage(spriteImage, sx, sy, sw, sh, 0, 0, dw, dh)] call. *)
Record DrawImage := mkDrawImage {
  sx : Z; sy : Z; sw : Z; sh : Z; dw : Z; dh : Z
}.

Inductive ConsoleEntry :=
| ErrorInvalidGridParameters   (* console.error('Invalid grid parameters') *)
| LogSpriteLoaded
| LogAutoDetected (imgWidth imgHeight cols rows frameWidth frameHeight : Z)
| LogManualGridSet (cols rows frameWidth frameHeight : Z)
| LogAutoDetectTriggered.

(** The browser as the methods see it.  [rafPending] holds the handles of
    the animation frame callbacks that are requested and not yet run or
    cancelled; handles are handed out from [rafCounter], starting at 1. *)
Record Browser := mkBrowser {
  clock : Q;
  rafCounter : Z;
  rafPending : list Z;
  drawn : list DrawImage;
  console : list ConsoleEntry
}.

Record World := mkWorld { this : SpriteAnimator; browser : Browser }.

(** ** Computations: state that survives an exception *)

Inductive Error := TypeError.

Inductive Completion (A : Type) :=
| Normal (a : A)
| Throw (e : Error).
Arguments Normal {A} a.
Arguments Throw {A} e.

Definition M (A : Type) : Type := World -> Completion A * World.

Definition ret {A} (a : A) : M A := fun w => (Normal a, w).

Definition bind {A B} (c : M A) (k : A -> M B) : M B :=
  fun w => match c w with
           | (Normal a, w') => k a w'
           | (Throw e, w') => (Throw e, w')
           end.

Definition throw {A} (e : Error) : M A := fun w => (Throw e, w).

Declare Scope js_scope.
Delimit Scope js_scope with js.
Notation "x <- c ;; k" := (bind c (fun x => k))
  (at level 61, c at next level, right associativity) : js_scope.
Notation "c ;; k" := (bind c (fun _ => k))
  (at level 61, right associativity) : js_scope.
Local Open Scope js_scope.

(** Reading [this.f] and assigning [this.f = e], where [e] may read [this]. *)
Definition load {A} (f : SpriteAnimator -> A) : M A :=
  fun w => (Normal (f (this w)), w).

Definition store {A} (set : A -> SpriteAnimator -> SpriteAnimator)
    (e : SpriteAnimator -> A) : M unit :=
  fun w => (Normal tt, mkWorld (set (e (this w)) (this w)) (browser w)).

Definition when (b : bool) (c : M unit) : M unit := if b then c else ret tt.

(** Reading a property of a value that may be [undefined]. *)
Definition deref {A} (o : option A) : M A :=
  match o with
  | Some a => ret a
  | None => throw TypeError
  end.

(** *** Browser interface *)

Definition performance_now : M Q := fun w => (Normal (clock (browser w)), w).

Definition requestAnimationFrame : M Z :=
  fun w =>
    let b := browser w in
    let handle := rafCounter b + 1 in
    (Normal handle,
     mkWorld (this w)
       (mkBrowser (clock b) handle (rafPending b ++ [handle]) (drawn b)
          (console b))).

Definition cancelAnimationFrame (handle : Z) : M unit :=
  fun w =>
    let b := browser w in
    (Normal tt,
     mkWorld (this w)
       (mkBrowser (clock b) (rafCounter b)
          (filter (fun h => negb (h =? handle)) (rafPending b)) (drawn b)
          (console b))).

Definition drawImage (d : DrawImage) : M unit :=
  fun w =>
    let b := browser w in
    (Normal tt,
     mkWorld (this w)
       (mkBrowser (clock b) (rafCounter b) (rafPending b) (drawn b ++ [d])
          (console b))).

Definition console_write (e : ConsoleEntry) : M unit :=
  fun w =>
    let b := browser w in
    (Normal tt,
     mkWorld (this w)
       (mkBrowser (clock b) (rafCounter b) (rafPending b) (drawn b)
          (console b ++ [e]))).

(** The browser moving its clock between two tasks. *)
Definition at_time (t : Q) (w : World) : World :=
  let b := browser w in
  mkWorld (this w)
    (mkBrowser t (rafCounter b) (rafPending b) (drawn b) (console b)).

(** Running a computation for its effect on the world, or for its result. *)
Definition exec {A} (c : M A) (w : World) : World := snd (c w).
Definition result {A} (c : M A) (w : World) : Completion A := fst (c w).

(** ** The methods of [SpriteAnimator] *)

Definition displaySpriteInfo : M unit := ret tt.
Definition updateFrameDisplay : M unit := ret tt.
Definition updatePerformanceDisplay : M unit := ret tt.

(** [findBestGridLayout(totalFrames, imgWidth, imgHeight)], in its two steps:
    the loop that fills [layouts], then the sort and [layouts[0]].  [rows] is
    [totalFrames / cols] under the guard [totalFrames % cols === 0], an exact
    quotient.  The literal [0.1] is taken as the rational 1/10.  The result
    [layouts[0]] is [undefined] ([None]) when [layouts] is empty. *)
Definition candidateLayouts (totalFrames imgWidth imgHeight : Z)
  : list Layout :=
  fold_left
    (fun layouts cols =>
       if JS.rem totalFrames cols =? 0 then
         let rows := totalFrames / cols in
         let frameW := JS.div imgWidth cols in
         let frameH := JS.div imgHeight rows in
         let aspectRatio := (frameW / frameH)%Q in
         layouts ++
           [mkLayout cols rows frameW frameH aspectRatio
              (cols * 2 +
               (if JS.ltb (1 # 10) aspectRatio && JS.ltb aspectRatio 3
                then 10 else 0))]
       else layouts)
    (JS.upto 1 totalFrames) [].

Definition findBestGridLayout (totalFrames imgWidth imgHeight : Z)
  : option Layout :=
  let layouts := candidateLayouts totalFrames imgWidth imgHeight in
  let layouts := JS.sort (fun a b => score b - score a) layouts in
  nth_error layouts 0.

(** [detectSpriteLayout()].  Reading [bestLayout.cols] of an [undefined]
    [bestLayout] throws, before the first assignment. *)
Definition detectSpriteLayout : M unit :=
  imgWidth <- load (fun this => width (spriteImage this)) ;;
  imgHeight <- load (fun this => height (spriteImage this)) ;;
  total <- load totalFrames ;;
  bestLayout <- deref (findBestGridLayout total imgWidth imgHeight) ;;
  store set_framesPerRow (fun _ => cols bestLayout) ;;
  store set_framesPerCol (fun _ => rows bestLayout) ;;
  store set_frameWidth
    (fun _ => JS.floor (JS.div imgWidth (cols bestLayout))) ;;
  store set_frameHeight
    (fun _ => JS.floor (JS.div imgHeight (rows bestLayout))) ;;
  store set_canvas
    (fun this => mkDim (frameWidth this) (height (canvas this))) ;;
  store set_canvas
    (fun this => mkDim (width (canvas this)) (frameHeight this)) ;;
  fw <- load frameWidth ;;
  fh <- load frameHeight ;;
  console_write
    (LogAutoDetected imgWidth imgHeight (cols bestLayout) (rows bestLayout)
       fw fh).

(** [setFPS(fps)] *)
Definition setFPS (value : Q) : M unit :=
  store set_fps (fun _ => JS.max 1 (JS.min 60 value)) ;;
  store set_frameInterval (fun this => (1000 / fps this)%Q).

(** [render()].  The canvas is cleared and the source rectangle of the
    current frame is drawn over the whole canvas. *)
Definition render : M unit :=
  cur <- load currentFrame ;;
  perRow <- load framesPerRow ;;
  let row := JS.floor (JS.div cur perRow) in
  let col := JS.rem cur perRow in
  x <- load (fun this => offsetX this + col * (frameWidth this + spacingX this)) ;;
  y <- load (fun this => offsetY this + row * (frameHeight this + spacingY this)) ;;
  d <- load (fun this =>
               mkDrawImage x y (frameWidth this) (frameHeight this)
                 (width (canvas this)) (height (canvas this))) ;;
  drawImage d.

(** [animate()], the animation frame callback. *)
Definition animate : M unit :=
  playing <- load isPlaying ;;
  if negb playing then ret tt else
  currentTime <- performance_now ;;
  deltaTime <- load (fun this => (currentTime - lastFrameTime this)%Q) ;;
  due <- load (fun this => JS.geb deltaTime (frameInterval this)) ;;
  when due
    (store set_currentFrame
       (fun this => JS.rem (currentFrame this + 1) (totalFrames this)) ;;
     render ;;
     updateFrameDisplay ;;
     store set_lastFrameTime
       (fun this =>
          (currentTime - JS.fmod deltaTime (frameInterval this))%Q)) ;;
  store set_frameCount (fun this => frameCount this + 1) ;;
  measured <- load (fun this =>
                      JS.geb (currentTime - fpsLastTime this)%Q 1000%Q) ;;
  when measured
    (store set_actualFps
       (fun this =>
          JS.round (inject_Z (frameCount this) * 1000
                    / (currentTime - fpsLastTime this))%Q) ;;
     store set_frameCount (fun _ => 0) ;;
     store set_fpsLastTime (fun _ => currentTime) ;;
     updatePerformanceDisplay) ;;
  handle <- requestAnimationFrame ;;
  store set_animationId (fun _ => Some handle).

(** [play()] *)
Definition play : M unit :=
  playing <- load isPlaying ;;
  when (negb playing)
    (store set_isPlaying (fun _ => true) ;;
     now <- performance_now ;;
     store set_lastFrameTime (fun _ => now) ;;
     animate).

(** [pause()].  [if (this.animationId)] holds for a handle other than 0. *)
Definition pause : M unit :=
  store set_isPlaying (fun _ => false) ;;
  id <- load animationId ;;
  match id with
  | Some handle =>
      when (negb (handle =? 0))
        (cancelAnimationFrame handle ;;
         store set_animationId (fun _ => None))
  | None => ret tt
  end.

(** [nextFrame()] and [prevFrame()] *)
Definition nextFrame : M unit :=
  store set_currentFrame
    (fun this => JS.rem (currentFrame this + 1) (totalFrames this)) ;;
  render ;;
  updateFrameDisplay.

Definition prevFrame : M unit :=
  store set_currentFrame
    (fun this =>
       JS.rem (currentFrame this - 1 + totalFrames this) (totalFrames this)) ;;
  render ;;
  updateFrameDisplay.

(** [setManualGrid(totalFrames, cols, frameWidth, frameHeight, offsetX,
    offsetY, spacingX, spacingY)] *)
Definition setManualGrid
    (totalFrames' cols' frameWidth' frameHeight'
     offsetX' offsetY' spacingX' spacingY' : Z) : M bool :=
  if (totalFrames' <? 1) || (cols' <? 1) || (frameWidth' <? 1)
     || (frameHeight' <? 1)
  then
    console_write ErrorInvalidGridParameters ;;
    ret false
  else
    store set_totalFrames (fun _ => totalFrames') ;;
    store set_framesPerRow (fun _ => cols') ;;
    store set_framesPerCol (fun _ => JS.ceil (JS.div totalFrames' cols')) ;;
    store set_frameWidth (fun _ => frameWidth') ;;
    store set_frameHeight (fun _ => frameHeight') ;;
    store set_offsetX (fun _ => offsetX') ;;
    store set_offsetY (fun _ => offsetY') ;;
    store set_spacingX (fun _ => spacingX') ;;
    store set_spacingY (fun _ => spacingY') ;;
    store set_autoDetect (fun _ => false) ;;
    store set_canvas (fun this => mkDim frameWidth' (height (canvas this))) ;;
    store set_canvas (fun this => mkDim (width (canvas this)) frameHeight') ;;
    store set_currentFrame (fun _ => 0) ;;
    render ;;
    updateFrameDisplay ;;
    displaySpriteInfo ;;
    perCol <- load framesPerCol ;;
    console_write (LogManualGridSet cols' perCol frameWidth' frameHeight') ;;
    ret true.

(** [triggerAutoDetect()] *)
Definition triggerAutoDetect : M unit :=
  store set_autoDetect (fun _ => true) ;;
  detectSpriteLayout ;;
  render ;;
  displaySpriteInfo ;;
  console_write LogAutoDetectTriggered.

(** The constructor, up to the call of [loadSprite()]: [canvasDim] is the
    size of the canvas element found under [canvasId]; the image has no
    dimensions before it is loaded. *)
Definition construct (canvasDim : Dim) (totalFrames' frameWidth' frameHeight' : Z)
    (b : Browser) : World :=
  mkWorld
    (mkSpriteAnimator canvasDim (mkDim 0 0) frameWidth' frameHeight'
       totalFrames' 4 2 0 false 24 (1000 / 24)%Q 0 0 0 (clock b) None
       0 0 0 0 true)
    b.

(** The [onload] handler [loadSprite()] installs, run by the browser once
    the image, of dimensions [img], is decoded. *)
Definition spriteImage_onload (img : Dim) : M unit :=
  store set_spriteImage (fun _ => img) ;;
  fw <- load frameWidth ;;
  fh <- load frameHeight ;;
  (if (fw =? 0) || (fh =? 0) then detectSpriteLayout
   else
     store set_framesPerRow
       (fun this => JS.floor (JS.div (width (spriteImage this)) (frameWidth this))) ;;
     store set_framesPerCol
       (fun this => JS.floor (JS.div (height (spriteImage this)) (frameHeight this)))) ;;
  console_write LogSpriteLoaded ;;
  displaySpriteInfo ;;
  render.

(** ** The browser driving the animator *)

Fixpoint times (n : nat) (c : M unit) : M unit :=
  match n with
  | O => ret tt
  | S n' => c ;; times n' c
  end.

(** One animation frame at time [now]: the clock is at [now], the list of
    requested callbacks is taken and emptied, and each callback taken is run.
    Every callback this program requests is [() => this.animate()]. *)
Definition animationFrame (now : Q) : M unit :=
  fun w =>
    let b := browser w in
    times (length (rafPending b)) animate
      (mkWorld (this w)
         (mkBrowser now (rafCounter b) [] (drawn b) (console b))).

(** ** Observations *)

(** Grid and frame size, the numbers [displaySpriteInfo] shows:
    [(framesPerRow, framesPerCol, frameWidth, frameHeight)]. *)
Definition gridSummary (s : SpriteAnimator) : Z * Z * Z * Z :=
  (framesPerRow s, framesPerCol s, frameWidth s, frameHeight s).

(** The most recent [drawImage] call. *)
Definition lastDrawn (w : World) : option DrawImage :=
  nth_error (rev (drawn (browser w))) 0.

(** ** The page *)

(** [new SpriteAnimator('animationCanvas', 'images/sprite.png', 8)] in a
    fresh browser, on a canvas of the default size, and the same once a
    sheet of 1024x512 pixels has loaded. *)
Definition page : World :=
  construct (mkDim 300 150) 8 0 0 (mkBrowser 0 0 [] [] []).

Definition pageLoaded : World :=
  exec (spriteImage_onload (mkDim 1024 512)) page.

(** ** Uploading a sheet: [loadFromFile] *)

Import Stdlib.Strings.String.

(** The [file] argument, by the one property the method reads: [file.type]. *)
Record File := mkFile { fileType : String.string }.

(** What the browser answers to [reader.readAsDataURL(file)] and, after it,
    to [this.spriteImage.src = ...]: the read fails, the read succeeds and
    the image fails to decode, or the image loads with dimensions [img]. *)
Inductive FileEvents :=
| ReaderError
| ImageError
| ImageLoaded (img : Dim).

Inductive LoadError :=
| InvalidFileType      (* 'Invalid file type' *)
| FailedToLoadImage    (* 'Failed to load image' *)
| FailedToReadFile.    (* 'Failed to read file' *)

(** How the promise of [loadFromFile] settles.  A computation that throws
    leaves it pending: the [onload] handler crashed before [resolve()]. *)
Inductive Settlement :=
| Resolved
| Rejected (e : LoadError).

(** [loadFromFile(file)], with the handlers it installs run on the events
    given.  [!file] is [None].  An image that fails to load has no
    dimensions.  The line [console.log('New sprite loaded from file')] and
    the data URL kept in [spriteImagePath] are left out. *)
Definition loadFromFile (file : option File) (events : FileEvents)
  : M Settlement :=
  match file with
  | None => ret (Rejected InvalidFileType)
  | Some f =>
      if negb (String.prefix "image/"%string (fileType f)) then
        ret (Rejected InvalidFileType)
      else
        match events with
        | ReaderError => ret (Rejected FailedToReadFile)
        | ImageError =>
            store set_spriteImage (fun _ => mkDim 0 0) ;;
            ret (Rejected FailedToLoadImage)
        | ImageLoaded img =>
            store set_spriteImage (fun _ => img) ;;
            auto <- load autoDetect ;;
            when auto detectSpriteLayout ;;
            render ;;
            displaySpriteInfo ;;
            ret Resolved
        end
  end.

(** ** The page's event listeners *)


Definition prevBtn_click : M unit :=
  playing <- load isPlaying ;;
  when playing pause ;;
  prevFrame.

Definition nextBtn_click : M unit :=
  playing <- load isPlaying ;;
  when playing pause ;;
  nextFrame.






(** A run of animation frames at the times [ts]. *)
Definition playFrames (ts : list Q) (w : World) : World :=
  fold_left (fun w t => exec (animationFrame t) w) ts w.

(** The source rectangle [render] draws when the frame index is
    [frameIndex]. *)
Definition sourceRect (w : World) (frameIndex : Z) : option DrawImage :=
  lastDrawn
    (exec render (mkWorld (set_currentFrame frameIndex (this w)) (browser w))).

(** ** The earlier revision of the engine (js/animation.js) *)

Module V1.

(** [render()] of the earlier revision: a fixed grid of 4 frames per row,
    no offset and no spacing. *)
Definition render : M unit :=
  let framesPerRow := 4 in
  cur <- load currentFrame ;;
  let row := JS.floor (JS.div cur framesPerRow) in
  let col := JS.rem cur framesPerRow in
  d <- load (fun this =>
               mkDrawImage (col * frameWidth this) (row * frameHeight this)
                 (frameWidth this) (frameHeight this)
                 (width (canvas this)) (height (canvas this))) ;;
  drawImage d.

End V1.

(** ** Consistent states *)

(** The animation loop is scheduled exactly while playing: one callback is
    pending, under the handle the animator holds, which is the last one
    handed out; while paused none is pending and no handle is held. *)
Definition scheduled (w : World) : Prop :=
  if isPlaying (this w)
  then exists handle,
         1 <= handle /\
         rafCounter (browser w) = handle /\
         animationId (this w) = Some handle /\
         rafPending (browser w) = [handle]
  else animationId (this w) = None /\ rafPending (browser w) = [].

(** The playback state is in its ranges. *)
Definition inRange (s : SpriteAnimator) : Prop :=
  1 <= totalFrames s /\
  0 <= currentFrame s < totalFrames s /\
  (1 <= fps s)%Q /\ (fps s <= 60)%Q /\
  frameInterval s = (1000 / fps s)%Q.

Definition consistent (w : World) : Prop :=
  inRange (this w) /\ 0 <= rafCounter (browser w) /\ scheduled w.

(** * Properties *)

(** ** JavaScript arithmetic on the ranges the engine uses *)

Lemma rem_nonneg (a b : Z) : 0 <= a -> 0 < b -> JS.rem a b = a mod b.
Proof.
  intros Ha Hb. unfold JS.rem. apply Z.rem_mod_nonneg; lia.
Qed.

Lemma floor_div (a b : Z) : JS.floor (JS.div a b) = a / b.
Proof.
  unfold JS.floor, JS.div. symmetry. apply Zdiv_Qdiv.
Qed.





(** ** Running the methods *)

(** [run] evaluates the monad, the methods and the field accesses, and
    leaves the arithmetic folded; [open_world] first splits a world into its
    fields, so that every field access evaluates. *)
Tactic Notation "run" :=
  cbv beta iota zeta delta
    [exec result triggerAutoDetect setManualGrid nextFrame prevFrame
     pause play animate setFPS render detectSpriteLayout
     displaySpriteInfo updateFrameDisplay updatePerformanceDisplay
     drawImage console_write cancelAnimationFrame requestAnimationFrame
     performance_now deref when store load throw bind ret
     canvas spriteImage frameWidth frameHeight totalFrames framesPerRow
     framesPerCol currentFrame isPlaying fps frameInterval lastFrameTime
     actualFps frameCount fpsLastTime animationId offsetX offsetY spacingX
     spacingY autoDetect
     set_canvas set_spriteImage set_frameWidth set_frameHeight
     set_totalFrames set_framesPerRow set_framesPerCol set_currentFrame
     set_isPlaying set_fps set_frameInterval set_lastFrameTime
     set_actualFps set_frameCount set_fpsLastTime set_animationId
     set_offsetX set_offsetY set_spacingX set_spacingY set_autoDetect
     this browser clock rafCounter rafPending drawn console
     width height fst snd negb] in *.

Ltac open_world w :=
  let s := fresh "s" in
  let b := fresh "b" in
  destruct w as [s b]; destruct s, b; run.

(** ** Stepping: [nextFrame] and [prevFrame] *)

(** C8.  With [totalFrames >= 1] and the frame index in [[0, totalFrames)],
    [nextFrame] sets the index to [(index + 1) mod totalFrames] and
    [prevFrame] sets it to [(index - 1 + totalFrames) mod totalFrames]; so
    [nextFrame] at [totalFrames - 1] wraps to [0], [prevFrame] at [0] wraps to
    [totalFrames - 1], and the index stays in [[0, totalFrames)].  Both
    return normally and leave [totalFrames] as it is. *)
Theorem step_wraps (w : World) :
  let n := totalFrames (this w) in
  let i := currentFrame (this w) in
  1 <= n ->
  0 <= i < n ->
  (result nextFrame w = Normal tt /\ result prevFrame w = Normal tt) /\
  currentFrame (this (exec nextFrame w)) = (i + 1) mod n /\
  currentFrame (this (exec prevFrame w)) = (i - 1 + n) mod n /\
  (i = n - 1 -> currentFrame (this (exec nextFrame w)) = 0) /\
  (i = 0 -> currentFrame (this (exec prevFrame w)) = n - 1) /\
  0 <= currentFrame (this (exec nextFrame w)) < n /\
  0 <= currentFrame (this (exec prevFrame w)) < n /\
  totalFrames (this (exec nextFrame w)) = n /\
  totalFrames (this (exec prevFrame w)) = n.
Proof.
  intros n i Hn Hi. subst n i. open_world w.
  rewrite !rem_nonneg by lia.
  match type of Hi with
  | _ <= ?i < ?n =>
      pose proof (Z.mod_pos_bound (i + 1) n ltac:(lia));
      pose proof (Z.mod_pos_bound (i - 1 + n) n ltac:(lia))
  end.
  repeat split; try reflexivity; try lia.
  - intros ->. rewrite Z.sub_add. apply Z_mod_same_full.
  - intros ->. rewrite Z.mod_small by lia. lia.
Qed.

Lemma step_wraps_witness :
  currentFrame (this (exec nextFrame pageLoaded)) = (0 + 1) mod 8 /\
  currentFrame (this (exec prevFrame pageLoaded)) = 7.
Proof.
  destruct (step_wraps pageLoaded) as (_ & Hn & Hp & _);
    [vm_compute; discriminate | vm_compute; split; [discriminate | reflexivity] |].
  split; [exact Hn | exact Hp].
Defined.

(** ** [pause] *)

(** After [pause] the animator is paused and holds no truthy handle. *)
Lemma pause_paused (w : World) :
  isPlaying (this (exec pause w)) = false /\
  (animationId (this (exec pause w)) = None \/
   animationId (this (exec pause w)) = Some 0).
Proof.
  open_world w.
  match goal with |- context [match ?id with Some _ => _ | None => _ end] =>
    destruct id as [h|]; [destruct (h =? 0) eqn:Eh|]
  end; run; auto.
  apply Z.eqb_eq in Eh. subst h. auto.
Qed.

(** C10.  [pause] is idempotent: from every state, [pause(); pause()]
    returns normally, like [pause()], and leaves the same world as [pause()]
    alone: the same animator (play flag, handle, frame index, timestamps and
    all other fields) and the same browser (pending callbacks included). *)
Theorem pause_idempotent (w : World) :
  result (pause ;; pause) w = result pause w /\
  result pause w = Normal tt /\
  exec (pause ;; pause) w = exec pause w.
Proof.
  open_world w.
  match goal with |- context [match ?id with Some _ => _ | None => _ end] =>
    destruct id as [h|]; [destruct (h =? 0) eqn:Eh|]
  end; run; rewrite ?Eh; run; auto.
Qed.

(** ** [setFPS] *)

Lemma clamp_spec (v : Q) :
  let c := JS.max 1 (JS.min 60 v) in
  (1 <= c)%Q /\ (c <= 60)%Q /\
  ((v < 1)%Q -> (c == 1)%Q) /\
  ((60 < v)%Q -> (c == 60)%Q) /\
  ((1 <= v)%Q -> (v <= 60)%Q -> (c == v)%Q).
Proof.
  cbv zeta. unfold JS.max, JS.min.
  destruct (Q.max_spec 1 (Qmin 60 v)) as [[H1 E1]|[H1 E1]];
  destruct (Q.min_spec 60 v) as [[H2 E2]|[H2 E2]];
  rewrite E1; rewrite ?E2 in *; repeat split; intros; try lra.
Qed.


(** ** The animation frame callback [animate] *)

(** While paused, [animate] does nothing at all. *)
Lemma animate_paused (w : World) :
  isPlaying (this w) = false -> animate w = (Normal tt, w).
Proof.
  intros H. unfold animate, bind, load. cbn [fst snd]. rewrite H. reflexivity.
Qed.




(** ** [render] and the source rectangle *)

Lemma lastDrawn_app (t : SpriteAnimator) (time : Q) (counter : Z)
    (pending : list Z) (draws : list DrawImage) (d : DrawImage)
    (lines : list ConsoleEntry) :
  lastDrawn
    (mkWorld t (mkBrowser time counter pending (draws ++ [d]) lines))
  = Some d.
Proof.
  unfold lastDrawn. cbn [browser drawn]. rewrite rev_app_distr. reflexivity.
Qed.

(** [render] returns normally, leaves the animator alone and issues one
    [drawImage] call. *)
Lemma render_draws (w : World) :
  let s := this w in
  let b := browser w in
  render w =
  (Normal tt,
   mkWorld s
     (mkBrowser (clock b) (rafCounter b) (rafPending b)
        (drawn b ++
         [mkDrawImage
            (offsetX s + JS.rem (currentFrame s) (framesPerRow s)
                         * (frameWidth s + spacingX s))
            (offsetY s + JS.floor (JS.div (currentFrame s) (framesPerRow s))
                         * (frameHeight s + spacingY s))
            (frameWidth s) (frameHeight s)
            (width (canvas s)) (height (canvas s))])
        (console b))).
Proof.
  open_world w. reflexivity.
Qed.

(** ** [setManualGrid] *)

Lemma grid_parameters_valid (tf c fw fh : Z) :
  (tf <? 1) || (c <? 1) || (fw <? 1) || (fh <? 1) = false
  <-> 1 <= tf /\ 1 <= c /\ 1 <= fw /\ 1 <= fh.
Proof.
  rewrite !orb_false_iff, !Z.ltb_ge. tauto.
Qed.


(** An accepted call installs its arguments as they are, resets the frame
    index, and draws frame 0. *)
Lemma setManualGrid_accepts (w : World) (tf c fw fh ox oy gx gy : Z) :
  1 <= tf /\ 1 <= c /\ 1 <= fw /\ 1 <= fh ->
  let s := this w in
  let b := browser w in
  let rows := JS.ceil (JS.div tf c) in
  setManualGrid tf c fw fh ox oy gx gy w =
  (Normal true,
   mkWorld
     (mkSpriteAnimator (mkDim fw fh) (spriteImage s) fw fh tf c rows 0
        (isPlaying s) (fps s) (frameInterval s) (lastFrameTime s)
        (actualFps s) (frameCount s) (fpsLastTime s) (animationId s)
        ox oy gx gy false)
     (mkBrowser (clock b) (rafCounter b) (rafPending b)
        (drawn b ++ [mkDrawImage ox oy fw fh fw fh])
        (console b ++ [LogManualGridSet c rows fw fh]))).
Proof.
  intros H. apply grid_parameters_valid in H.
  unfold setManualGrid. rewrite H. open_world w.
  unfold JS.rem. rewrite floor_div, Z.rem_0_l, Z.div_0_l by lia.
  rewrite !Z.mul_0_l, !Z.add_0_r. reflexivity.
Qed.

(** ** Grid detection *)

(** A loop that pushes [g x] for the [x] that pass the test [p]. *)
Lemma fold_left_push {A B} (p : A -> bool) (g : A -> B) (l : list A)
    (acc : list B) :
  fold_left (fun acc x => if p x then acc ++ [g x] else acc) l acc
  = acc ++ map g (filter p l).
Proof.
  revert acc. induction l as [|x l IH]; intros acc; cbn [fold_left filter].
  - symmetry. apply app_nil_r.
  - rewrite IH. destruct (p x); [|reflexivity].
    cbn [map]. rewrite <- app_assoc. reflexivity.
Qed.

(** The loop of [findBestGridLayout] keeps, in order, the divisors of
    [totalFrames] among [1 .. totalFrames], each with its exact quotient. *)
Lemma candidateLayouts_cols (tf iw ih : Z) :
  map cols (candidateLayouts tf iw ih) =
  filter (fun c => JS.rem tf c =? 0) (JS.upto 1 tf).
Proof.
  unfold candidateLayouts. cbv zeta. rewrite fold_left_push. cbn [app].
  rewrite map_map. cbn [cols]. apply map_id.
Qed.

Lemma candidateLayouts_rows (tf iw ih : Z) :
  Forall (fun l => rows l = tf / cols l) (candidateLayouts tf iw ih).
Proof.
  unfold candidateLayouts. cbv zeta. rewrite fold_left_push. cbn [app].
  apply Forall_forall. intros l Hl. apply in_map_iff in Hl.
  destruct Hl as (c & <- & _). reflexivity.
Qed.

Lemma upto_In (lo hi x : Z) : In x (JS.upto lo hi) <-> lo <= x <= hi.
Proof.
  unfold JS.upto. rewrite in_map_iff. split.
  - intros (k & <- & Hk). apply in_seq in Hk. lia.
  - intros H. exists (Z.to_nat (x - lo)). split; [lia|].
    apply in_seq. lia.
Qed.

(** Every candidate is a factorisation [cols * rows = totalFrames] with
    [1 <= cols <= totalFrames]. *)
Lemma candidateLayouts_factor (tf iw ih : Z) (l : Layout) :
  In l (candidateLayouts tf iw ih) ->
  1 <= cols l <= tf /\ cols l * rows l = tf.
Proof.
  intros Hin.
  pose proof (candidateLayouts_rows tf iw ih) as Hrows.
  rewrite Forall_forall in Hrows. rewrite (Hrows l Hin).
  assert (Hc : In (cols l) (map cols (candidateLayouts tf iw ih)))
    by (apply in_map; exact Hin).
  rewrite candidateLayouts_cols in Hc. apply filter_In in Hc.
  destruct Hc as [Hr Hd]. apply upto_In in Hr. apply Z.eqb_eq in Hd.
  split; [exact Hr|].
  unfold JS.rem in Hd. pose proof (Z.quot_rem' tf (cols l)) as E.
  rewrite Hd, Z.add_0_r in E.
  set (q := Z.quot tf (cols l)) in E. clearbody q.
  rewrite E at 1. rewrite (Z.mul_comm (cols l) q), Z.div_mul by lia. lia.
Qed.

(** [layouts[0]] after the sort is a candidate of maximal score; it is
    [undefined] only when there is no candidate. *)
Lemma sort_head (ls : list Layout) :
  match nth_error (JS.sort (fun a b => score b - score a) ls) 0 with
  | None => ls = []
  | Some best => In best ls /\ Forall (fun l => score l <= score best) ls
  end.
Proof.
  induction ls as [|x ls IH]; cbn [JS.sort fold_right]; [reflexivity|].
  fold (JS.sort (fun a b => score b - score a) ls).
  destruct (JS.sort (fun a b => score b - score a) ls) as [|y r];
    cbn [nth_error JS.insert] in *.
  - subst ls. split; [left; reflexivity|]. repeat constructor. lia.
  - destruct IH as [Hin Hmax].
    destruct (0 <? score y - score x) eqn:E; cbn [nth_error].
    + apply Z.ltb_lt in E. split; [right; exact Hin|].
      constructor; [lia | exact Hmax].
    + apply Z.ltb_ge in E. split; [left; reflexivity|].
      constructor; [lia|].
      eapply Forall_impl; [|exact Hmax]. cbv beta. intros l Hl. lia.
Qed.

(** For [totalFrames >= 1] the detection finds a layout: a factorisation of
    [totalFrames] whose score no candidate exceeds. *)
Lemma findBestGridLayout_some (tf iw ih : Z) :
  1 <= tf ->
  exists best,
    findBestGridLayout tf iw ih = Some best /\
    In best (candidateLayouts tf iw ih) /\
    (1 <= cols best <= tf /\ cols best * rows best = tf) /\
    Forall (fun l => score l <= score best) (candidateLayouts tf iw ih).
Proof.
  intros Htf. unfold findBestGridLayout. cbv zeta.
  pose proof (sort_head (candidateLayouts tf iw ih)) as H.
  destruct (nth_error _ 0) as [best|].
  - destruct H as [Hin Hmax]. exists best.
    repeat split; try assumption; apply (candidateLayouts_factor _ _ _ _ Hin).
  - exfalso.
    assert (Hc : In 1 (map cols (candidateLayouts tf iw ih))).
    { rewrite candidateLayouts_cols. apply filter_In. split.
      - apply upto_In. lia.
      - unfold JS.rem. rewrite Z.rem_1_r. reflexivity. }
    rewrite H in Hc. exact Hc.
Qed.

(** For [totalFrames < 1] the loop body never runs and [layouts[0]] is
    [undefined]. *)
Lemma findBestGridLayout_none (tf iw ih : Z) :
  tf < 1 -> findBestGridLayout tf iw ih = None.
Proof.
  intros Htf. unfold findBestGridLayout, candidateLayouts, JS.upto.
  replace (Z.to_nat (tf - 1 + 1)) with O by lia. reflexivity.
Qed.

(** [detectSpriteLayout] with a layout found: the grid, the frame size and
    the canvas size are set from it; nothing else changes. *)
Lemma detectSpriteLayout_found (w : World) (best : Layout) :
  let s := this w in
  let b := browser w in
  let iw := width (spriteImage s) in
  let ih := height (spriteImage s) in
  let fw := JS.floor (JS.div iw (cols best)) in
  let fh := JS.floor (JS.div ih (rows best)) in
  findBestGridLayout (totalFrames s) iw ih = Some best ->
  detectSpriteLayout w =
  (Normal tt,
   mkWorld
     (mkSpriteAnimator (mkDim fw fh) (spriteImage s) fw fh (totalFrames s)
        (cols best) (rows best) (currentFrame s) (isPlaying s) (fps s)
        (frameInterval s) (lastFrameTime s) (actualFps s) (frameCount s)
        (fpsLastTime s) (animationId s) (offsetX s) (offsetY s)
        (spacingX s) (spacingY s) (autoDetect s))
     (mkBrowser (clock b) (rafCounter b) (rafPending b) (drawn b)
        (console b ++
         [LogAutoDetected iw ih (cols best) (rows best) fw fh]))).
Proof.
  intros s b iw ih fw fh H. subst s b iw ih fw fh. open_world w.
  rewrite H. reflexivity.
Qed.

(** [detectSpriteLayout] without a layout: reading [bestLayout.cols] throws
    and the world is as before. *)
Lemma detectSpriteLayout_undefined (w : World) :
  findBestGridLayout (totalFrames (this w)) (width (spriteImage (this w)))
    (height (spriteImage (this w))) = None ->
  detectSpriteLayout w = (Throw TypeError, w).
Proof.
  intros H. open_world w. rewrite H. reflexivity.
Qed.

Lemma detectSpriteLayout_no_frames (w : World) :
  totalFrames (this w) < 1 -> detectSpriteLayout w = (Throw TypeError, w).
Proof.
  intros H. apply detectSpriteLayout_undefined.
  apply findBestGridLayout_none. exact H.
Qed.

(** For [totalFrames >= 1] the detection succeeds: the grid it sets is a
    factorisation of [totalFrames], and the frame size is the sheet size
    divided by it, rounded down. *)
Lemma detectSpriteLayout_factorises (w : World) :
  1 <= totalFrames (this w) ->
  let s' := this (exec detectSpriteLayout w) in
  result detectSpriteLayout w = Normal tt /\
  framesPerRow s' * framesPerCol s' = totalFrames (this w) /\
  1 <= framesPerRow s' <= totalFrames (this w) /\
  frameWidth s' = width (spriteImage (this w)) / framesPerRow s' /\
  frameHeight s' = height (spriteImage (this w)) / framesPerCol s' /\
  totalFrames s' = totalFrames (this w).
Proof.
  intros Htf s'. subst s'.
  destruct (findBestGridLayout_some (totalFrames (this w))
              (width (spriteImage (this w))) (height (spriteImage (this w)))
              Htf) as (best & E & _ & (Hc & Hf) & _).
  pose proof (detectSpriteLayout_found w best) as H. cbv zeta in H.
  unfold result, exec. rewrite (H E).
  cbn [fst snd this framesPerRow framesPerCol frameWidth frameHeight
       totalFrames].
  rewrite !floor_div. auto 7.
Qed.

(** C1, as the code has it.  For a sheet of 1024x512 pixels and
    [totalFrames = 8], the candidates (cols, rows) are (1,8), (2,4), (4,2)
    and (8,1), with scores 2, 4, 18 and 26 ([2 * cols], plus 10 where the
    frame's aspect ratio lies strictly between 0.1 and 3: 16, 4, 1 and 1/4,
    all of them exact in binary64 as well); the detection selects the
    maximum, (8,1), and sets 8 columns, 1 row and frames of 128x512
    pixels. *)
Theorem detect_1024x512_8 (w : World) :
  spriteImage (this w) = mkDim 1024 512 ->
  totalFrames (this w) = 8 ->
  map (fun l => (cols l, rows l, Qred (aspectRatio l), score l))
    (candidateLayouts 8 1024 512)
  = [(1, 8, 16%Q, 2); (2, 4, 4%Q, 4); (4, 2, 1%Q, 18); (8, 1, (1 # 4)%Q, 26)] /\
  result detectSpriteLayout w = Normal tt /\
  gridSummary (this (exec detectSpriteLayout w)) = (8, 1, 128, 512).
Proof.
  intros Himg Htf.
  split; [vm_compute; reflexivity|].
  assert (Hbest : exists best,
             findBestGridLayout 8 1024 512 = Some best /\
             cols best = 8 /\ rows best = 1)
    by (eexists; vm_compute; repeat split; reflexivity).
  destruct Hbest as (best & Hbest & Hc & Hr).
  pose proof (detectSpriteLayout_found w best) as H. cbv zeta in H.
  rewrite Himg, Htf in H. cbn [width height] in H.
  specialize (H Hbest). unfold result, exec. rewrite H.
  cbn [fst snd this]. split; [reflexivity|].
  unfold gridSummary. cbn. rewrite Hc, Hr. reflexivity.
Qed.

Lemma detect_1024x512_8_witness :
  gridSummary (this (exec detectSpriteLayout pageLoaded)) = (8, 1, 128, 512).
Proof.
  apply (detect_1024x512_8 pageLoaded); vm_compute; reflexivity.
Defined.

(** C1, as stated, fails: on the page's animator (8 frames) with the sheet
    of 1024x512 pixels loaded, the detected grid is not 4 columns by 2 rows
    of 256x256 pixels. *)
Lemma detect_1024x512_8_not_4x2 :
  totalFrames (this pageLoaded) = 8 /\
  spriteImage (this pageLoaded) = mkDim 1024 512 /\
  result detectSpriteLayout pageLoaded = Normal tt /\
  gridSummary (this (exec detectSpriteLayout pageLoaded)) <> (4, 2, 256, 256).
Proof.
  vm_compute. repeat split; try reflexivity. discriminate.
Qed.

(** C6, evaluated.  An animator constructed with [totalFrames = 0]: when the
    sheet (1024x512) has loaded, [findBestGridLayout] returns [undefined]
    and [detectSpriteLayout] throws a [TypeError], from the [onload] handler
    and from [triggerAutoDetect] alike. *)
Theorem detect_zero_frames_throws :
  let w := construct (mkDim 300 150) 0 0 0 (mkBrowser 0 0 [] [] []) in
  let loaded := exec (spriteImage_onload (mkDim 1024 512)) w in
  findBestGridLayout 0 1024 512 = None /\
  result (spriteImage_onload (mkDim 1024 512)) w = Throw TypeError /\
  result detectSpriteLayout loaded = Throw TypeError /\
  result triggerAutoDetect loaded = Throw TypeError.
Proof.
  vm_compute. repeat split; reflexivity.
Qed.

(** ** Frame rectangles *)

(** C2.  With at least one column and the frame index in
    [[0, totalFrames)], [render] draws the source rectangle
    [x = offsetX + (index mod columns) * (frameWidth + spacingX)],
    [y = offsetY + (index div columns) * (frameHeight + spacingY)], of width
    [frameWidth] and height [frameHeight], and leaves the animator as it is.
    After [setManualGrid(6, 3, 100, 100, 0, 0, 0, 0)] there are 2 rows and
    frame 5 is drawn from (200, 100), 100x100; and after any accepted
    [setManualGrid] frame 0 is drawn from
    [(offsetX, offsetY)], [frameWidth] x [frameHeight]. *)
Theorem render_source_rect (w : World) :
  let s := this w in
  1 <= framesPerRow s ->
  0 <= currentFrame s < totalFrames s ->
  (result render w = Normal tt /\
   this (exec render w) = s /\
   lastDrawn (exec render w) =
     Some (mkDrawImage
             (offsetX s + (currentFrame s mod framesPerRow s)
                          * (frameWidth s + spacingX s))
             (offsetY s + (currentFrame s / framesPerRow s)
                          * (frameHeight s + spacingY s))
             (frameWidth s) (frameHeight s)
             (width (canvas s)) (height (canvas s)))) /\
  (let w5 :=
     exec (setManualGrid 6 3 100 100 0 0 0 0 ;;
           nextFrame ;; nextFrame ;; nextFrame ;; nextFrame ;; nextFrame) w in
   framesPerCol (this w5) = 2 /\
   currentFrame (this w5) = 5 /\
   lastDrawn (exec render w5) = Some (mkDrawImage 200 100 100 100 100 100)) /\
  (forall tf c fw fh ox oy gx gy,
     1 <= tf /\ 1 <= c /\ 1 <= fw /\ 1 <= fh ->
     let w0 := exec (setManualGrid tf c fw fh ox oy gx gy) w in
     currentFrame (this w0) = 0 /\
     lastDrawn (exec render w0) = Some (mkDrawImage ox oy fw fh fw fh)).
Proof.
  intros s Hcols Hidx. subst s. split; [|split].
  - pose proof (render_draws w) as H. cbv zeta in H.
    unfold result, exec. rewrite H. cbn [fst snd this].
    rewrite lastDrawn_app, floor_div, rem_nonneg by lia. auto.
  - open_world w. rewrite !lastDrawn_app. vm_compute. auto.
  - intros tf c fw fh ox oy gx gy Hvalid w0. subst w0.
    pose proof (proj2 (grid_parameters_valid tf c fw fh) Hvalid) as E.
    unfold setManualGrid. rewrite E. open_world w.
    rewrite lastDrawn_app. unfold JS.rem.
    rewrite floor_div, Z.rem_0_l, Z.div_0_l by lia.
    rewrite !Z.mul_0_l, !Z.add_0_r. auto.
Qed.

Lemma render_source_rect_witness :
  let w := exec (nextFrame ;; nextFrame) pageLoaded in
  let s := this w in
  currentFrame s = 2 /\
  lastDrawn (exec render w) =
    Some (mkDrawImage
            (offsetX s + (currentFrame s mod framesPerRow s)
                         * (frameWidth s + spacingX s))
            (offsetY s + (currentFrame s / framesPerRow s)
                         * (frameHeight s + spacingY s))
            (frameWidth s) (frameHeight s)
            (width (canvas s)) (height (canvas s))).
Proof.
  intros w s.
  assert (Hcols : 1 <= framesPerRow (this w)) by (vm_compute; discriminate).
  assert (Hidx : 0 <= currentFrame (this w) < totalFrames (this w))
    by (vm_compute; split; [discriminate | reflexivity]).
  destruct (render_source_rect w Hcols Hidx) as [(_ & _ & H) _].
  split; [vm_compute; reflexivity | exact H].
Defined.

(** ** Manual grids: validation, sheet bounds, frame index *)


(** C4, as stated, fails: on the sheet of 1024x512 pixels, the grid
    [setManualGrid(8, 4, 1000, 1000, 0, 0, 0, 0)] reaches beyond the sheet
    in both directions ([0 + 4 * 1000 > 1024], [0 + 2 * 1000 > 512]), and it
    is accepted: the call returns [true] and the animator is changed. *)
Lemma manual_grid_beyond_sheet_accepted :
  let call := setManualGrid 8 4 1000 1000 0 0 0 0 in
  width (spriteImage (this pageLoaded)) < 0 + 4 * (1000 + 0) /\
  height (spriteImage (this pageLoaded))
    < 0 + JS.ceil (JS.div 8 4) * (1000 + 0) /\
  result call pageLoaded = Normal true /\
  gridSummary (this (exec call pageLoaded)) = (4, 2, 1000, 1000) /\
  this (exec call pageLoaded) <> this pageLoaded.
Proof.
  vm_compute. repeat split; try reflexivity. discriminate.
Qed.

(** C4, as the code has it.  [setManualGrid] does not compare the grid with
    the sheet: a grid that reaches beyond the sheet, in x or in y, is
    accepted whenever [totalFrames], [cols], [frameWidth] and [frameHeight]
    are at least 1, and then installed exactly as given, nothing clamped;
    the sheet stays as it is. *)
Theorem setManualGrid_ignores_sheet (w : World) (tf c fw fh ox oy gx gy : Z) :
  let call := setManualGrid tf c fw fh ox oy gx gy in
  let s' := this (exec call w) in
  1 <= tf /\ 1 <= c /\ 1 <= fw /\ 1 <= fh ->
  width (spriteImage (this w)) < ox + c * (fw + gx) \/
  height (spriteImage (this w)) < oy + JS.ceil (JS.div tf c) * (fh + gy) ->
  result call w = Normal true /\
  (totalFrames s', framesPerRow s', framesPerCol s')
    = (tf, c, JS.ceil (JS.div tf c)) /\
  (frameWidth s', frameHeight s') = (fw, fh) /\
  (offsetX s', offsetY s', spacingX s', spacingY s') = (ox, oy, gx, gy) /\
  spriteImage s' = spriteImage (this w).
Proof.
  intros call s' Hv _. subst call s'.
  pose proof (setManualGrid_accepts w tf c fw fh ox oy gx gy Hv) as H.
  cbv zeta in H. unfold result, exec. rewrite H. cbn. auto 6.
Qed.

Lemma setManualGrid_ignores_sheet_witness :
  let call := setManualGrid 8 4 1000 1000 0 0 0 0 in
  let s' := this (exec call pageLoaded) in
  result call pageLoaded = Normal true /\
  (totalFrames s', framesPerRow s', framesPerCol s')
    = (8, 4, JS.ceil (JS.div 8 4)) /\
  (frameWidth s', frameHeight s') = (1000, 1000) /\
  (offsetX s', offsetY s', spacingX s', spacingY s') = (0, 0, 0, 0) /\
  spriteImage s' = spriteImage (this pageLoaded).
Proof.
  apply (setManualGrid_ignores_sheet pageLoaded 8 4 1000 1000 0 0 0 0).
  - lia.
  - left. vm_compute. reflexivity.
Defined.

(** [triggerAutoDetect] writes the detected grid, the frame size, the canvas
    size and the auto-detect flag; [totalFrames] and the frame index are not
    among the fields it writes. *)
Lemma triggerAutoDetect_keeps_index (w : World) :
  1 <= totalFrames (this w) ->
  result triggerAutoDetect w = Normal tt /\
  totalFrames (this (exec triggerAutoDetect w)) = totalFrames (this w) /\
  currentFrame (this (exec triggerAutoDetect w)) = currentFrame (this w).
Proof.
  intros Htf. open_world w.
  match goal with
  | |- context [findBestGridLayout ?tf ?iw ?ih] =>
      destruct (findBestGridLayout_some tf iw ih Htf) as (best & E & _)
  end.
  rewrite E. auto.
Qed.

(** C7, as stated, fails for a manual grid: with 8 frames and the frame
    index at 3, [setManualGrid(8, 4, 256, 256, 0, 0, 0, 0)] is accepted and
    keeps 8 frames, so 3 is still in range, yet the index is not kept. *)
Lemma manual_grid_resets_valid_index :
  let w := exec (nextFrame ;; nextFrame ;; nextFrame) pageLoaded in
  let call := setManualGrid 8 4 256 256 0 0 0 0 in
  currentFrame (this w) = 3 /\
  result call w = Normal true /\
  0 <= currentFrame (this w) < totalFrames (this (exec call w)) /\
  currentFrame (this (exec call w)) <> currentFrame (this w).
Proof.
  vm_compute. repeat split; try reflexivity; discriminate.
Qed.

(** C7, as the code has it.  An accepted [setManualGrid] resets the frame
    index to 0, which lies in [[0, totalFrames)] for the new [totalFrames];
    [triggerAutoDetect] changes neither [totalFrames] nor the frame index, so
    an index in range before it is kept and is in range after it. *)
Theorem layout_change_frame_index (w : World) (tf c fw fh ox oy gx gy : Z) :
  let manual := exec (setManualGrid tf c fw fh ox oy gx gy) w in
  let auto := exec triggerAutoDetect w in
  1 <= tf /\ 1 <= c /\ 1 <= fw /\ 1 <= fh ->
  0 <= currentFrame (this w) < totalFrames (this w) ->
  (result (setManualGrid tf c fw fh ox oy gx gy) w = Normal true /\
   totalFrames (this manual) = tf /\
   currentFrame (this manual) = 0 /\
   0 <= currentFrame (this manual) < totalFrames (this manual)) /\
  (result triggerAutoDetect w = Normal tt /\
   totalFrames (this auto) = totalFrames (this w) /\
   currentFrame (this auto) = currentFrame (this w) /\
   0 <= currentFrame (this auto) < totalFrames (this auto)).
Proof.
  intros manual auto Hv Hidx. subst manual auto. split.
  - pose proof (setManualGrid_accepts w tf c fw fh ox oy gx gy Hv) as H.
    cbv zeta in H. unfold result, exec. rewrite H. cbn. repeat split; lia.
  - destruct (triggerAutoDetect_keeps_index w ltac:(lia)) as (E1 & E2 & E3).
    rewrite E2, E3. auto.
Qed.

Lemma layout_change_frame_index_witness :
  let w := exec (nextFrame ;; nextFrame ;; nextFrame) pageLoaded in
  currentFrame (this (exec (setManualGrid 8 4 256 256 0 0 0 0) w)) = 0 /\
  currentFrame (this (exec triggerAutoDetect w)) = currentFrame (this w).
Proof.
  intros w.
  assert (Hidx : 0 <= currentFrame (this w) < totalFrames (this w))
    by (vm_compute; split; [discriminate | reflexivity]).
  destruct (layout_change_frame_index w 8 4 256 256 0 0 0 0 ltac:(lia) Hidx)
    as [(_ & _ & Hm & _) (_ & _ & Ha & _)].
  split; [exact Hm | exact Ha].
Defined.

(** * Further properties *)

(** ** Consistent states are kept *)

Ltac unfold_consistent := unfold consistent, inRange, scheduled in *.

Lemma next_index_in_range (cur tf : Z) :
  1 <= tf -> 0 <= cur < tf -> 0 <= JS.rem (cur + 1) tf < tf.
Proof.
  intros Htf Hcur. rewrite rem_nonneg by lia. apply Z.mod_pos_bound. lia.
Qed.

Lemma prev_index_in_range (cur tf : Z) :
  1 <= tf -> 0 <= cur < tf -> 0 <= JS.rem (cur - 1 + tf) tf < tf.
Proof.
  intros Htf Hcur. rewrite rem_nonneg by lia. apply Z.mod_pos_bound. lia.
Qed.

Lemma clamp_in_range (v : Q) :
  (1 <= JS.max 1 (JS.min 60 v))%Q /\ (JS.max 1 (JS.min 60 v) <= 60)%Q.
Proof.
  pose proof (clamp_spec v) as H. cbv zeta in H. tauto.
Qed.

Lemma setFPS_consistent (v : Q) (w : World) :
  consistent w -> consistent (exec (setFPS v) w).
Proof.
  intros H. unfold_consistent. open_world w.
  pose proof (clamp_in_range v). intuition.
Qed.

Lemma render_consistent (w : World) :
  consistent w -> consistent (exec render w).
Proof.
  intros H. unfold_consistent. open_world w. exact H.
Qed.

Lemma nextFrame_consistent (w : World) :
  consistent w -> consistent (exec nextFrame w).
Proof.
  intros H. unfold_consistent. open_world w.
  destruct H as ((Htf & Hcur & Hfps) & Hrest).
  pose proof (next_index_in_range _ _ Htf Hcur). intuition.
Qed.

Lemma prevFrame_consistent (w : World) :
  consistent w -> consistent (exec prevFrame w).
Proof.
  intros H. unfold_consistent. open_world w.
  destruct H as ((Htf & Hcur & Hfps) & Hrest).
  pose proof (prev_index_in_range _ _ Htf Hcur). intuition.
Qed.

Lemma pause_consistent (w : World) :
  consistent w ->
  consistent (exec pause w) /\ isPlaying (this (exec pause w)) = false.
Proof.
  intros H. unfold_consistent. open_world w.
  destruct H as (Hrange & Hctr & Hloop).
  match type of Hloop with
  | if ?p then _ else _ => destruct p
  end.
  - destruct Hloop as (h & Hh & Hc & -> & ->).
    replace (h =? 0) with false by (symmetry; apply Z.eqb_neq; lia).
    run. cbn [filter]. rewrite Z.eqb_refl. cbn [negb]. auto.
  - destruct Hloop as (-> & ->). auto.
Qed.

(** One run of [animate] while playing, no callback pending: the loop is
    scheduled again and the state stays in its ranges. *)
Lemma animate_consistent (w : World) :
  inRange (this w) ->
  0 <= rafCounter (browser w) ->
  isPlaying (this w) = true ->
  rafPending (browser w) = [] ->
  consistent (exec animate w) /\ isPlaying (this (exec animate w)) = true.
Proof.
  intros Hrange Hctr Hplay Hpend. unfold_consistent. open_world w. subst. run.
  destruct Hrange as (Htf & Hcur & Hfps).
  pose proof (next_index_in_range _ _ Htf Hcur).
  repeat match goal with
         | |- context [if ?c then _ else _] => destruct c
         end; run;
    (split; [|reflexivity]);
    (split; [intuition | split; [lia | eexists; intuition; lia]]).
Qed.

Lemma play_consistent (w : World) :
  consistent w ->
  consistent (exec play w) /\ isPlaying (this (exec play w)) = true.
Proof.
  intros H.
  destruct (isPlaying (this w)) eqn:Hplay.
  - assert (E : play w = (Normal tt, w))
      by (unfold play, bind, load, when; rewrite Hplay; reflexivity).
    unfold exec. rewrite E. auto.
  - assert (E : exec play w =
                exec animate
                  (mkWorld
                     (set_lastFrameTime (clock (browser w))
                        (set_isPlaying true (this w)))
                     (browser w))).
    { unfold exec, play, bind, load, when, store, performance_now.
      rewrite Hplay. cbn [negb fst snd this browser].
      destruct (animate _) as [[|] ?]; reflexivity. }
    rewrite E. clear E.
    unfold_consistent. rewrite Hplay in H.
    destruct H as (Hrange & Hctr & _ & Hpend).
    apply animate_consistent; destruct w as [s b]; destruct s;
      cbn in *; auto.
Qed.

(** An animation frame while paused runs nothing: only the clock moves. *)
Lemma animationFrame_paused (now : Q) (w : World) :
  consistent w ->
  isPlaying (this w) = false ->
  animationFrame now w = (Normal tt, at_time now w).
Proof.
  intros (_ & _ & Hloop) Hplay. unfold scheduled in Hloop.
  rewrite Hplay in Hloop. destruct Hloop as [_ Hpend].
  unfold animationFrame, at_time. rewrite Hpend. reflexivity.
Qed.



Lemma at_time_consistent (now : Q) (w : World) :
  consistent w -> consistent (at_time now w).
Proof.
  intros H. unfold_consistent. unfold at_time. open_world w. exact H.
Qed.

Lemma detectSpriteLayout_consistent (w : World) :
  consistent w -> consistent (exec detectSpriteLayout w).
Proof.
  intros H. unfold_consistent. open_world w.
  match goal with
  | |- context [findBestGridLayout ?a ?b ?c] =>
      destruct (findBestGridLayout a b c)
  end; exact H.
Qed.



Lemma spriteImage_onload_consistent (img : Dim) (w : World) :
  consistent w -> consistent (exec (spriteImage_onload img) w).
Proof.
  intros H. unfold_consistent. unfold exec, spriteImage_onload.
  open_world w.
  repeat match goal with
         | |- context [findBestGridLayout ?a ?b ?c] =>
             destruct (findBestGridLayout a b c)
         | |- context [if ?c then _ else _] => destruct c
         end; exact H.
Qed.


Lemma bind_consistent {A B} (c : M A) (k : A -> M B) (w : World) :
  consistent (exec c w) ->
  (forall a w', consistent w' -> consistent (exec (k a) w')) ->
  consistent (exec (bind c k) w).
Proof.
  unfold exec, bind. intros Hc Hk.
  destruct (c w) as [[a|e] w']; cbn [snd] in *; auto.
Qed.








Lemma construct_consistent (canvasDim : Dim) (tf fw fh : Z) (b : Browser) :
  1 <= tf ->
  rafPending b = [] ->
  0 <= rafCounter b ->
  consistent (construct canvasDim tf fw fh b).
Proof.
  intros Htf Hpend Hctr. unfold_consistent. unfold construct.
  cbn [this browser totalFrames currentFrame fps frameInterval isPlaying
       animationId].
  repeat split; try lia; try assumption; try discriminate.
Qed.



(** ** Pausing stops the animation *)

Lemma playFrames_paused (ts : list Q) (w : World) :
  consistent w ->
  isPlaying (this w) = false ->
  this (playFrames ts w) = this w /\
  drawn (browser (playFrames ts w)) = drawn (browser w) /\
  rafPending (browser (playFrames ts w)) = rafPending (browser w).
Proof.
  unfold playFrames. revert w.
  induction ts as [|t ts IH]; intros w H Hplay; cbn [fold_left]; [auto|].
  unfold exec at 2 4 6. rewrite (animationFrame_paused t w H Hplay).
  cbn [snd].
  destruct (IH (at_time t w) (at_time_consistent t w H) Hplay)
    as (E1 & E2 & E3).
  rewrite E1, E2, E3. auto.
Qed.

(** X2.  From any consistent state, after [pause()] no callback is pending
    and no animation frame, however many follow and whenever, changes the
    animator or draws anything: playback stops until [play()] is called. *)
Theorem pause_stops_playback (w : World) (ts : list Q) :
  consistent w ->
  let paused := exec pause w in
  rafPending (browser paused) = [] /\
  this (playFrames ts paused) = this paused /\
  drawn (browser (playFrames ts paused)) = drawn (browser paused).
Proof.
  intros H paused.
  destruct (pause_consistent w H) as [Hc Hp]. fold paused in Hc, Hp.
  destruct (playFrames_paused ts paused Hc Hp) as (E1 & E2 & _).
  repeat split; try assumption.
  destruct Hc as (_ & _ & Hloop). unfold scheduled in Hloop.
  rewrite Hp in Hloop. apply Hloop.
Qed.

Lemma pause_stops_playback_witness :
  let playing := exec (setFPS 1 ;; play) pageLoaded in
  this (playFrames [16; 1001; 1990; 5000]%Q (exec pause playing))
  = this (exec pause playing).
Proof.
  intros playing.
  apply (pause_stops_playback playing [16; 1001; 1990; 5000]%Q).
  unfold playing. apply bind_consistent.
  - apply setFPS_consistent. unfold pageLoaded.
    apply spriteImage_onload_consistent.
    apply construct_consistent; [lia | reflexivity | cbn; lia].
  - intros _ w' H'. apply play_consistent. exact H'.
Defined.

(** ** Playback is never faster than the target rate *)








(** ** The layout the detection selects *)

Lemma sorted_split {A} (R : A -> A -> Prop) (pre : list A) (x : A)
    (post : list A) :
  Sorted.StronglySorted R (pre ++ x :: post) ->
  Forall (fun y => R y x) pre /\ Forall (R x) post.
Proof.
  induction pre as [|y pre IH]; cbn [app]; intros H.
  - apply Sorted.StronglySorted_inv in H. split; [constructor | apply H].
  - apply Sorted.StronglySorted_inv in H. destruct H as [Hs Hy].
    destruct (IH Hs) as [Hpre Hpost]. split; [|exact Hpost].
    constructor; [|exact Hpre].
    rewrite Forall_forall in Hy. apply Hy. apply in_or_app. right. left.
    reflexivity.
Qed.

Lemma sorted_filter {A} (R : A -> A -> Prop) (p : A -> bool) (l : list A) :
  Sorted.StronglySorted R l -> Sorted.StronglySorted R (filter p l).
Proof.
  induction 1 as [|x l Hs IH Hx]; cbn [filter]; [constructor|].
  destruct (p x); [|exact IH]. constructor; [exact IH|].
  rewrite Forall_forall in *. intros y Hy. apply filter_In in Hy.
  apply Hx. apply Hy.
Qed.

Lemma upto_sorted (lo hi : Z) : Sorted.StronglySorted Z.lt (JS.upto lo hi).
Proof.
  unfold JS.upto. generalize (Z.to_nat (hi - lo + 1)) as n.
  generalize O as a. intros a n. revert a.
  induction n as [|n IH]; intros a; cbn [seq map]; constructor.
  - apply IH.
  - apply Forall_forall. intros y Hy. apply in_map_iff in Hy.
    destruct Hy as (k & <- & Hk). apply in_seq in Hk. lia.
Qed.

(** The stable sort puts first the earliest element of maximal score. *)
Lemma sort_head_first (ls : list Layout) :
  match nth_error (JS.sort (fun a b => score b - score a) ls) 0 with
  | None => ls = []
  | Some best =>
      exists pre post,
        ls = pre ++ best :: post /\
        Forall (fun l => score l < score best) pre /\
        Forall (fun l => score l <= score best) post
  end.
Proof.
  induction ls as [|x ls IH]; cbn [JS.sort fold_right]; [reflexivity|].
  fold (JS.sort (fun a b => score b - score a) ls).
  destruct (JS.sort (fun a b => score b - score a) ls) as [|y r];
    cbn [nth_error JS.insert] in *.
  - subst ls. exists [], []. repeat split; constructor.
  - destruct IH as (pre & post & -> & Hpre & Hpost).
    destruct (0 <? score y - score x) eqn:E; cbn [nth_error].
    + apply Z.ltb_lt in E. exists (x :: pre), post.
      repeat split; [|exact Hpost]. constructor; [lia | exact Hpre].
    + apply Z.ltb_ge in E. exists [], (pre ++ y :: post).
      repeat split; [constructor|].
      apply Forall_app. split.
      * eapply Forall_impl; [|exact Hpre]. cbv beta. intros l Hl. lia.
      * constructor; [lia|].
        eapply Forall_impl; [|exact Hpost]. cbv beta. intros l Hl. lia.
Qed.

(** X4.  For [totalFrames >= 1], [findBestGridLayout] returns a layout.  Its
    [cols] is a divisor of [totalFrames] in [[1, totalFrames]] and its [rows]
    the quotient; every divisor has a candidate; no candidate has a higher
    score; and among the candidates of the same score it is the one with the
    fewest columns (the sort is stable and the loop counts [cols] up). *)
Theorem findBestGridLayout_first_best (tf iw ih : Z) :
  1 <= tf ->
  exists best,
    findBestGridLayout tf iw ih = Some best /\
    (1 <= cols best <= tf /\ tf mod cols best = 0 /\
     rows best = tf / cols best) /\
    (forall c, 1 <= c <= tf -> tf mod c = 0 ->
       exists l, In l (candidateLayouts tf iw ih) /\ cols l = c) /\
    (forall l, In l (candidateLayouts tf iw ih) ->
       score l < score best \/
       (score l = score best /\ cols best <= cols l)).
Proof.
  intros Htf.
  destruct (findBestGridLayout_some tf iw ih Htf)
    as (best & E & Hin & (Hc & Hf) & _).
  exists best. split; [exact E|].
  pose proof (candidateLayouts_rows tf iw ih) as Hrows.
  rewrite Forall_forall in Hrows.
  split; [|split].
  - split; [exact Hc|]. split; [|apply Hrows; exact Hin].
    rewrite <- Hf, Z.mul_comm. apply Z.mod_mul. lia.
  - intros c Hc' Hd.
    assert (Hcol : In c (map cols (candidateLayouts tf iw ih))).
    { rewrite candidateLayouts_cols. apply filter_In. split.
      - apply upto_In. exact Hc'.
      - apply Z.eqb_eq. rewrite rem_nonneg by lia. exact Hd. }
    apply in_map_iff in Hcol. destruct Hcol as (l & Hl & Hlin).
    exists l. auto.
  - unfold findBestGridLayout in E. cbv zeta in E.
    pose proof (sort_head_first (candidateLayouts tf iw ih)) as Hs.
    rewrite E in Hs. destruct Hs as (pre & post & Hsplit & Hpre & Hpost).
    pose proof (upto_sorted 1 tf) as Hsorted.
    apply (sorted_filter _ (fun c => JS.rem tf c =? 0)) in Hsorted.
    rewrite <- (candidateLayouts_cols tf iw ih), Hsplit, map_app in Hsorted.
    cbn [map] in Hsorted. apply sorted_split in Hsorted.
    destruct Hsorted as [_ Hafter].
    rewrite Forall_forall in Hpre, Hpost, Hafter.
    intros l Hl. rewrite Hsplit in Hl. apply in_app_or in Hl.
    destruct Hl as [Hl | [<- | Hl]].
    + left. apply Hpre. exact Hl.
    + right. split; [reflexivity | lia].
    + specialize (Hpost l Hl).
      assert (cols best < cols l) by (apply Hafter, in_map; exact Hl).
      lia.
Qed.

Lemma findBestGridLayout_first_best_witness :
  exists best,
    findBestGridLayout 6 10 200 = Some best /\
    (1 <= cols best <= 6 /\ 6 mod cols best = 0 /\
     rows best = 6 / cols best) /\
    (forall c, 1 <= c <= 6 -> 6 mod c = 0 ->
       exists l, In l (candidateLayouts 6 10 200) /\ cols l = c) /\
    (forall l, In l (candidateLayouts 6 10 200) ->
       score l < score best \/
       (score l = score best /\ cols best <= cols l)).
Proof.
  apply (findBestGridLayout_first_best 6 10 200). lia.
Defined.

(** ** Frame rectangles of a detected grid *)

(** The rectangle [sourceRect] reports, spelled out. *)
Lemma sourceRect_eq (w : World) (i : Z) :
  let s := this w in
  sourceRect w i =
  Some (mkDrawImage
          (offsetX s + JS.rem i (framesPerRow s) * (frameWidth s + spacingX s))
          (offsetY s + JS.floor (JS.div i (framesPerRow s))
                       * (frameHeight s + spacingY s))
          (frameWidth s) (frameHeight s)
          (width (canvas s)) (height (canvas s))).
Proof.
  unfold sourceRect.
  pose proof (render_draws
                (mkWorld (set_currentFrame i (this w)) (browser w))) as H.
  cbv zeta in H. unfold exec. rewrite H. cbn [snd].
  rewrite lastDrawn_app. destruct w as [s b]. destruct s. reflexivity.
Qed.

(** X5.  A detected grid lies within the sheet.  With [totalFrames >= 1],
    a sheet of non-negative dimensions and no offset or spacing set, after
    [detectSpriteLayout] the source rectangle of every frame index in
    [[0, totalFrames)] lies inside the sheet. *)
Theorem detected_frames_within_sheet (w : World) (i : Z) :
  let s := this w in
  1 <= totalFrames s ->
  0 <= width (spriteImage s) ->
  0 <= height (spriteImage s) ->
  (offsetX s, offsetY s, spacingX s, spacingY s) = (0, 0, 0, 0) ->
  0 <= i < totalFrames s ->
  exists d,
    sourceRect (exec detectSpriteLayout w) i = Some d /\
    0 <= sx d /\ sx d + sw d <= width (spriteImage s) /\
    0 <= sy d /\ sy d + sh d <= height (spriteImage s).
Proof.
  intros s Htf Hw Hh Hzero Hi. subst s.
  destruct (findBestGridLayout_some (totalFrames (this w))
              (width (spriteImage (this w))) (height (spriteImage (this w)))
              Htf) as (best & E & _ & (Hc & Hf) & _).
  pose proof (detectSpriteLayout_found w best) as H. cbv zeta in H.
  specialize (H E).
  pose proof (sourceRect_eq (exec detectSpriteLayout w) i) as R.
  cbv zeta in R. unfold exec in R at 2 3 4 5 6 7 8 9 10 11 12.
  rewrite H in R.
  cbn [snd this offsetX offsetY spacingX spacingY framesPerRow frameWidth
       frameHeight canvas width height] in R.
  injection Hzero as E1 E2 E3 E4. rewrite E1, E2, E3, E4 in R.
  rewrite !floor_div, rem_nonneg in R by lia.
  eexists. split; [exact R|]. cbn [sx sy sw sh].
  set (c := cols best) in *. set (r := rows best) in *.
  set (W := width (spriteImage (this w))) in *.
  set (H' := height (spriteImage (this w))) in *.
  set (n := totalFrames (this w)) in *.
  assert (Hr : 1 <= r) by nia.
  pose proof (Z.mod_pos_bound i c ltac:(lia)) as Hcol.
  pose proof (Z.mul_div_le W c ltac:(lia)) as HW.
  pose proof (Z.mul_div_le H' r ltac:(lia)) as HH.
  pose proof (Z.div_pos W c Hw ltac:(lia)) as Hfw.
  pose proof (Z.div_pos H' r Hh ltac:(lia)) as Hfh.
  pose proof (Z.div_pos i c ltac:(lia) ltac:(lia)) as Hrow0.
  assert (Hrow : i / c < r)
    by (apply Z.div_lt_upper_bound; lia).
  repeat split; nia.
Qed.

Lemma detected_frames_within_sheet_witness :
  exists d,
    sourceRect (exec detectSpriteLayout pageLoaded) 7 = Some d /\
    0 <= sx d /\ sx d + sw d <= width (spriteImage (this pageLoaded)) /\
    0 <= sy d /\ sy d + sh d <= height (spriteImage (this pageLoaded)).
Proof.
  apply (detected_frames_within_sheet pageLoaded 7);
    vm_compute; try reflexivity; try discriminate.
  split; [discriminate | reflexivity].
Defined.

(** X6.  Distinct frames never overlap.  With at least one column, frames
    of at least 1x1 pixels and non-negative spacing, the source rectangles
    of two different frame indices (non-negative) are disjoint: one lies
    entirely to the left of, or entirely above, the other. *)
Theorem source_rects_disjoint (w : World) (i j : Z) :
  let s := this w in
  1 <= framesPerRow s ->
  1 <= frameWidth s /\ 1 <= frameHeight s ->
  0 <= spacingX s /\ 0 <= spacingY s ->
  0 <= i -> 0 <= j -> i <> j ->
  exists a b,
    sourceRect w i = Some a /\ sourceRect w j = Some b /\
    (sx a + sw a <= sx b \/ sx b + sw b <= sx a \/
     sy a + sh a <= sy b \/ sy b + sh b <= sy a).
Proof.
  intros s Hc [Hfw Hfh] [Hgx Hgy] Hi Hj Hij.
  pose proof (sourceRect_eq w i) as Ri. pose proof (sourceRect_eq w j) as Rj.
  cbv zeta in Ri, Rj. fold s in Ri, Rj.
  rewrite floor_div, rem_nonneg in Ri, Rj by lia.
  do 2 eexists. split; [exact Ri|]. split; [exact Rj|]. cbn [sx sy sw sh].
  set (c := framesPerRow s) in *.
  pose proof (Z.div_mod i c ltac:(lia)) as Ei.
  pose proof (Z.div_mod j c ltac:(lia)) as Ej.
  pose proof (Z.mod_pos_bound i c ltac:(lia)) as Bi.
  pose proof (Z.mod_pos_bound j c ltac:(lia)) as Bj.
  set (ri := i / c) in *. set (rj := j / c) in *.
  set (ci := i mod c) in *. set (cj := j mod c) in *.
  destruct (Z.lt_trichotomy ri rj) as [Hr | [Hr | Hr]].
  - right. right. left. nia.
  - destruct (Z.lt_trichotomy ci cj) as [Hcol | [Hcol | Hcol]].
    + left. nia.
    + exfalso. apply Hij. rewrite Ei, Ej, Hr, Hcol. reflexivity.
    + right. left. nia.
  - right. right. right. nia.
Qed.

Lemma source_rects_disjoint_witness :
  exists a b,
    sourceRect pageLoaded 3 = Some a /\ sourceRect pageLoaded 4 = Some b /\
    (sx a + sw a <= sx b \/ sx b + sw b <= sx a \/
     sy a + sh a <= sy b \/ sy b + sh b <= sy a).
Proof.
  apply (source_rects_disjoint pageLoaded 3 4);
    vm_compute; try discriminate; split; discriminate.
Defined.

(** ** Stepping composes *)

(** What [nextFrame] and [prevFrame] write: the frame index (and a draw
    call); everything else of the animator stays. *)
Lemma nextFrame_effect (w : World) :
  result nextFrame w = Normal tt /\
  this (exec nextFrame w) =
    set_currentFrame
      (JS.rem (currentFrame (this w) + 1) (totalFrames (this w))) (this w) /\
  rafPending (browser (exec nextFrame w)) = rafPending (browser w).
Proof.
  open_world w. auto.
Qed.

Lemma prevFrame_effect (w : World) :
  result prevFrame w = Normal tt /\
  this (exec prevFrame w) =
    set_currentFrame
      (JS.rem (currentFrame (this w) - 1 + totalFrames (this w))
         (totalFrames (this w))) (this w) /\
  rafPending (browser (exec prevFrame w)) = rafPending (browser w).
Proof.
  open_world w. auto.
Qed.

Lemma exec_seq {A B} (c : M A) (k : M B) (w : World) (a : A) :
  result c w = Normal a -> exec (c ;; k) w = exec k (exec c w).
Proof.
  unfold result, exec, bind. destruct (c w) as [[x|e] w']; cbn [fst snd].
  - reflexivity.
  - discriminate.
Qed.

Lemma times_nextFrame (n : nat) (w : World) :
  1 <= totalFrames (this w) ->
  0 <= currentFrame (this w) < totalFrames (this w) ->
  result (times n nextFrame) w = Normal tt /\
  totalFrames (this (exec (times n nextFrame) w)) = totalFrames (this w) /\
  currentFrame (this (exec (times n nextFrame) w)) =
    (currentFrame (this w) + Z.of_nat n) mod totalFrames (this w).
Proof.
  revert w. induction n as [|n IH]; intros w Htf Hidx.
  - cbn [times]. unfold result, exec, ret. cbn [fst snd].
    rewrite Z.add_0_r, Z.mod_small by lia. auto.
  - cbn [times].
    destruct (nextFrame_effect w) as (Hres & Hthis & _).
    rewrite (exec_seq _ _ _ _ Hres).
    assert (Hres' : result (nextFrame ;; times n nextFrame) w =
                    result (times n nextFrame) (exec nextFrame w)).
    { unfold result, exec, bind in *.
      destruct (nextFrame w) as [[x|e] w']; [reflexivity | discriminate]. }
    rewrite Hres'.
    assert (Ht : totalFrames (this (exec nextFrame w)) = totalFrames (this w))
      by (rewrite Hthis; destruct (this w); reflexivity).
    assert (Hc : currentFrame (this (exec nextFrame w)) =
                 (currentFrame (this w) + 1) mod totalFrames (this w))
      by (rewrite Hthis, <- rem_nonneg by lia; destruct (this w); reflexivity).
    pose proof (Z.mod_pos_bound (currentFrame (this w) + 1)
                  (totalFrames (this w)) ltac:(lia)) as Hb.
    destruct (IH (exec nextFrame w)) as (E1 & E2 & E3);
      [rewrite Ht; exact Htf | rewrite Ht, Hc; exact Hb |].
    rewrite E1, E2, E3, Ht, Hc, Zplus_mod_idemp_l.
    repeat split; try reflexivity. f_equal. lia.
Qed.

Lemma prev_after_next (i n : Z) :
  1 <= n -> 0 <= i < n -> JS.rem (JS.rem (i + 1) n - 1 + n) n = i.
Proof.
  intros Hn Hi. rewrite (rem_nonneg (i + 1) n) by lia.
  destruct (Z.eq_dec (i + 1) n) as [E|E].
  - rewrite E, Z_mod_same_full, rem_nonneg, Z.mod_small by lia. lia.
  - rewrite (Z.mod_small (i + 1) n), rem_nonneg by lia.
    replace (i + 1 - 1 + n) with (i + 1 * n) by lia.
    rewrite Z.mod_add, Z.mod_small by lia. reflexivity.
Qed.

Lemma next_after_prev (i n : Z) :
  1 <= n -> 0 <= i < n -> JS.rem (JS.rem (i - 1 + n) n + 1) n = i.
Proof.
  intros Hn Hi. rewrite (rem_nonneg (i - 1 + n) n) by lia.
  destruct (Z.eq_dec i 0) as [E|E].
  - subst i. rewrite (Z.mod_small (0 - 1 + n) n), rem_nonneg by lia.
    replace (0 - 1 + n + 1) with n by lia. apply Z_mod_same_full.
  - replace (i - 1 + n) with (i - 1 + 1 * n) by lia.
    rewrite Z.mod_add, (Z.mod_small (i - 1) n), rem_nonneg by lia.
    rewrite Z.mod_small by lia. lia.
Qed.

(** X7.  Stepping is a cycle.  With the frame index in
    [[0, totalFrames)]: [prevFrame] undoes [nextFrame] and [nextFrame]
    undoes [prevFrame], [n] steps forward advance the index by [n] modulo
    [totalFrames], and [totalFrames] steps forward lead back to the same
    frame. *)
Theorem stepping_cycles (w : World) (n : nat) :
  let total := totalFrames (this w) in
  let i := currentFrame (this w) in
  1 <= total ->
  0 <= i < total ->
  currentFrame (this (exec (nextFrame ;; prevFrame) w)) = i /\
  currentFrame (this (exec (prevFrame ;; nextFrame) w)) = i /\
  currentFrame (this (exec (times n nextFrame) w)) =
    (i + Z.of_nat n) mod total /\
  currentFrame (this (exec (times (Z.to_nat total) nextFrame) w)) = i.
Proof.
  intros total i Htf Hidx. subst total i.
  split; [|split; [|split]].
  - open_world w. apply prev_after_next; assumption.
  - open_world w. apply next_after_prev; assumption.
  - apply times_nextFrame; assumption.
  - destruct (times_nextFrame (Z.to_nat (totalFrames (this w))) w Htf Hidx)
      as (_ & _ & E).
    rewrite E, Z2Nat.id by lia.
    replace (currentFrame (this w) + totalFrames (this w))
      with (currentFrame (this w) + 1 * totalFrames (this w)) by lia.
    rewrite Z.mod_add by lia. apply Z.mod_small. exact Hidx.
Qed.

Lemma stepping_cycles_witness :
  currentFrame (this (exec (times (Z.to_nat (totalFrames (this pageLoaded)))
                              nextFrame) pageLoaded))
  = currentFrame (this pageLoaded).
Proof.
  apply (stepping_cycles pageLoaded 3).
  - vm_compute. discriminate.
  - vm_compute. split; [discriminate | reflexivity].
Defined.

(** ** [play] and the step buttons *)

(** After [play] the animator is playing, whatever the state before. *)
Lemma play_playing (w : World) :
  result play w = Normal tt /\ isPlaying (this (exec play w)) = true.
Proof.
  destruct (isPlaying (this w)) eqn:Hp; open_world w; subst; run; [auto|].
  repeat match goal with
         | |- context [if ?c then _ else _] => destruct c
         end; auto.
Qed.

(** X8.  [play] is idempotent: from every state, [play(); play()] leaves
    the same world as [play()] alone; the second call requests no second
    callback and does not touch [lastFrameTime]. *)
Theorem play_idempotent (w : World) :
  result (play ;; play) w = Normal tt /\
  result play w = Normal tt /\
  exec (play ;; play) w = exec play w.
Proof.
  destruct (play_playing w) as [Hres Hplay].
  assert (E : play (exec play w) = (Normal tt, exec play w))
    by (unfold play at 1, bind, load, when; rewrite Hplay; reflexivity).
  split; [|split; [exact Hres|]].
  - unfold result, exec, bind in *.
    destruct (play w) as [[x|e] w']; cbn [fst snd] in *;
      [rewrite E; reflexivity | discriminate].
  - rewrite (exec_seq _ _ _ _ Hres). unfold exec at 1. rewrite E. reflexivity.
Qed.

(** [pause] returns normally and leaves the frames alone. *)
Lemma pause_effect (w : World) :
  result pause w = Normal tt /\
  totalFrames (this (exec pause w)) = totalFrames (this w) /\
  currentFrame (this (exec pause w)) = currentFrame (this w).
Proof.
  open_world w.
  match goal with
  | |- context [match ?id with Some _ => _ | None => _ end] =>
      destruct id as [h|]; [destruct (h =? 0)|]
  end; auto.
Qed.

(** X9.  The step buttons stop playback.  From a consistent state, playing
    or not, a click on the next (previous) button leaves the animator
    paused with no callback pending and the frame index one step forward
    (back), modulo [totalFrames]; animation frames that follow change
    nothing. *)
Theorem step_buttons_pause (w : World) (ts : list Q) :
  consistent w ->
  let total := totalFrames (this w) in
  let i := currentFrame (this w) in
  let next := exec nextBtn_click w in
  let prev := exec prevBtn_click w in
  (isPlaying (this next) = false /\ rafPending (browser next) = [] /\
   currentFrame (this next) = (i + 1) mod total /\
   this (playFrames ts next) = this next) /\
  (isPlaying (this prev) = false /\ rafPending (browser prev) = [] /\
   currentFrame (this prev) = (i - 1 + total) mod total /\
   this (playFrames ts prev) = this prev).
Proof.
  intros H. cbv zeta.
  assert (Hp : exists p,
             consistent p /\ isPlaying (this p) = false /\
             totalFrames (this p) = totalFrames (this w) /\
             currentFrame (this p) = currentFrame (this w) /\
             exec nextBtn_click w = exec nextFrame p /\
             exec prevBtn_click w = exec prevFrame p).
  { destruct (isPlaying (this w)) eqn:Hplay.
    - exists (exec pause w). destruct (pause_consistent w H) as [Hc Hf].
      destruct (pause_effect w) as (Hres & Et & Ec).
      refine (conj Hc (conj Hf (conj Et (conj Ec (conj _ _))))).
      + unfold nextBtn_click, exec, bind, load, when.
        rewrite Hplay. unfold result in Hres.
        destruct (pause w) as [[[]|e] w']; cbn [fst snd] in *;
          [reflexivity | discriminate].
      + unfold prevBtn_click, exec, bind, load, when.
        rewrite Hplay. unfold result in Hres.
        destruct (pause w) as [[[]|e] w']; cbn [fst snd] in *;
          [reflexivity | discriminate].
    - exists w.
      refine (conj H (conj Hplay (conj eq_refl (conj eq_refl (conj _ _))))).
      + unfold nextBtn_click, exec, bind, load, when, ret.
        rewrite Hplay. reflexivity.
      + unfold prevBtn_click, exec, bind, load, when, ret.
        rewrite Hplay. reflexivity. }
  destruct Hp as (p & Hc & Hf & Htf & Hi & -> & ->).
  pose proof Hc as ((Htf1 & Hidx & _) & _ & Hloop).
  unfold scheduled in Hloop. rewrite Hf in Hloop. destruct Hloop as [_ Hpend].
  destruct (nextFrame_effect p) as (_ & En & Pn).
  destruct (prevFrame_effect p) as (_ & Ep & Pp).
  assert (Fn : isPlaying (this (exec nextFrame p)) = false)
    by (rewrite En; destruct (this p); exact Hf).
  assert (Fp : isPlaying (this (exec prevFrame p)) = false)
    by (rewrite Ep; destruct (this p); exact Hf).
  split.
  - repeat split; try assumption.
    + rewrite En, <- Htf, <- Hi, <- rem_nonneg by lia.
      destruct (this p); reflexivity.
    + apply playFrames_paused; [apply nextFrame_consistent|]; assumption.
  - repeat split; try assumption.
    + rewrite Ep, <- Htf, <- Hi, <- rem_nonneg by lia.
      destruct (this p); reflexivity.
    + apply playFrames_paused; [apply prevFrame_consistent|]; assumption.
Qed.

Lemma step_buttons_pause_witness :
  let w := exec (setFPS 1 ;; play) pageLoaded in
  isPlaying (this w) = true /\
  isPlaying (this (exec nextBtn_click w)) = false /\
  currentFrame (this (exec nextBtn_click w)) =
    (currentFrame (this w) + 1) mod totalFrames (this w).
Proof.
  intros w.
  assert (H : consistent w).
  { unfold w. apply bind_consistent.
    - apply setFPS_consistent. unfold pageLoaded.
      apply spriteImage_onload_consistent.
      apply construct_consistent; [lia | reflexivity | cbn; lia].
    - intros _ w' H'. apply play_consistent. exact H'. }
  destruct (step_buttons_pause w [] H) as [(H1 & _ & H3 & _) _].
  split; [vm_compute; reflexivity|]. split; assumption.
Defined.

(** ** Uploads *)



(** X11.  An upload respects the grid mode.  For an image file that loads
    with dimensions [img]: while auto-detect is off (after an accepted
    [setManualGrid]), the promise resolves and the animator keeps its
    manual grid, frame size, offsets, frame count and frame index; only the
    image is replaced.  While auto-detect is on and [totalFrames >= 1], the
    promise resolves and the grid is detected anew for the new image: a
    factorisation of [totalFrames], with the frame size the image size
    divided by it, rounded down. *)
Theorem upload_respects_grid_mode (f : File) (img : Dim) (w : World) :
  String.prefix "image/" (fileType f) = true ->
  let upload := loadFromFile (Some f) (ImageLoaded img) in
  (autoDetect (this w) = false ->
   result upload w = Normal Resolved /\
   this (exec upload w) = set_spriteImage img (this w)) /\
  (autoDetect (this w) = true -> 1 <= totalFrames (this w) ->
   let s' := this (exec upload w) in
   result upload w = Normal Resolved /\
   spriteImage s' = img /\
   totalFrames s' = totalFrames (this w) /\
   framesPerRow s' * framesPerCol s' = totalFrames (this w) /\
   frameWidth s' = width img / framesPerRow s' /\
   frameHeight s' = height img / framesPerCol s') /\
  (forall tf c fw fh ox oy gx gy,
     1 <= tf /\ 1 <= c /\ 1 <= fw /\ 1 <= fh ->
     let w1 := exec (setManualGrid tf c fw fh ox oy gx gy) w in
     let s2 := this (exec upload w1) in
     gridSummary s2 = (c, JS.ceil (JS.div tf c), fw, fh) /\
     (offsetX s2, offsetY s2, spacingX s2, spacingY s2) = (ox, oy, gx, gy) /\
     totalFrames s2 = tf /\
     spriteImage s2 = img).
Proof.
  intros P upload. subst upload.
  assert (Hoff : forall w0, autoDetect (this w0) = false ->
            result (loadFromFile (Some f) (ImageLoaded img)) w0
              = Normal Resolved /\
            this (exec (loadFromFile (Some f) (ImageLoaded img)) w0)
              = set_spriteImage img (this w0)).
  { intros w0 Hauto. unfold loadFromFile. rewrite P. cbn [negb].
    open_world w0. subst. auto. }
  split; [apply Hoff|]. split.
  - intros Hauto Htf. unfold loadFromFile. rewrite P. cbn [negb].
    open_world w. subst. run.
    match goal with
    | |- context [findBestGridLayout ?tf ?iw ?ih] =>
        destruct (findBestGridLayout_some tf iw ih Htf)
          as (best & E & _ & (Hc & Hf) & _)
    end.
    destruct img as [iw ih]. run. rewrite E. run.
    rewrite !floor_div. auto 7.
  - intros tf c fw fh ox oy gx gy Hv.
    pose proof (setManualGrid_accepts w tf c fw fh ox oy gx gy Hv) as H.
    cbv zeta in H. cbv zeta.
    destruct (Hoff (exec (setManualGrid tf c fw fh ox oy gx gy) w)) as [_ E].
    + unfold exec. rewrite H. reflexivity.
    + rewrite E. unfold exec. rewrite H. cbn. auto.
Qed.

Lemma upload_respects_grid_mode_witness :
  let upload := loadFromFile (Some (mkFile "image/png")) (ImageLoaded (mkDim 600 200)) in
  gridSummary
    (this (exec upload (exec (setManualGrid 6 3 100 100 0 0 0 0) pageLoaded)))
  = (3, JS.ceil (JS.div 6 3), 100, 100).
Proof.
  intros upload.
  destruct (upload_respects_grid_mode (mkFile "image/png") (mkDim 600 200)
              pageLoaded eq_refl) as (_ & _ & H).
  apply (H 6 3 100 100 0 0 0 0). lia.
Defined.

(** ** The measured rate *)



(** ** Loading a sheet with a given frame size *)

(** X13.  When the animator holds a frame size (both dimensions at least
    1) as the sheet loads, the [onload] handler does not detect anything: it
    sets the grid to the whole numbers of frames that fit the sheet,
    [floor(width / frameWidth)] by [floor(height / frameHeight)], so the grid
    never reaches beyond the sheet, and leaves the frame size, the canvas
    and [totalFrames] as they are.  A frame wider than the sheet gives 0
    columns. *)
Theorem onload_with_frame_size (img : Dim) (w : World) :
  let s := this w in
  1 <= frameWidth s /\ 1 <= frameHeight s ->
  0 <= width img /\ 0 <= height img ->
  let s' := this (exec (spriteImage_onload img) w) in
  result (spriteImage_onload img) w = Normal tt /\
  (framesPerRow s' = width img / frameWidth s /\
   framesPerCol s' = height img / frameHeight s) /\
  (framesPerRow s' * frameWidth s <= width img
   < (framesPerRow s' + 1) * frameWidth s) /\
  (framesPerCol s' * frameHeight s <= height img
   < (framesPerCol s' + 1) * frameHeight s) /\
  (width img < frameWidth s -> framesPerRow s' = 0) /\
  (frameWidth s', frameHeight s', canvas s', totalFrames s')
  = (frameWidth s, frameHeight s, canvas s, totalFrames s).
Proof.
  intros s [Hfw Hfh] [Hw Hh]. subst s. cbv zeta.
  unfold spriteImage_onload. open_world w. destruct img as [iw ih]. run.
  repeat match goal with
         | |- context [?x =? 0] =>
             replace (x =? 0) with false by (symmetry; apply Z.eqb_neq; lia)
         end.
  cbn [orb]. run. rewrite !floor_div.
  match goal with
  | |- context [iw / ?fw] =>
      pose proof (Z.div_mod iw fw ltac:(lia));
      pose proof (Z.mod_pos_bound iw fw ltac:(lia));
      pose proof (Z.div_small iw fw)
  end.
  match goal with
  | |- context [ih / ?fh] =>
      pose proof (Z.div_mod ih fh ltac:(lia));
      pose proof (Z.mod_pos_bound ih fh ltac:(lia))
  end.
  repeat split; try reflexivity; try nia.
Qed.

Lemma onload_with_frame_size_witness :
  let w := construct (mkDim 300 150) 8 256 256 (mkBrowser 0 0 [] [] []) in
  let s' := this (exec (spriteImage_onload (mkDim 1024 512)) w) in
  framesPerRow s' = 1024 / 256 /\ framesPerCol s' = 512 / 256.
Proof.
  intros w s'.
  apply (onload_with_frame_size (mkDim 1024 512) w); cbn; lia.
Defined.

(** ** The earlier revision *)

(** X14.  The renderer extends the earlier one.  On a grid of 4 frames per
    row without offset or spacing (the grid the earlier revision fixed, and
    the defaults the constructor sets), [render] issues the same draw call
    and leaves the same world as the earlier revision's [render], for every
    frame index. *)
Theorem render_extends_v1 (w : World) :
  framesPerRow (this w) = 4 ->
  (offsetX (this w), offsetY (this w), spacingX (this w), spacingY (this w))
  = (0, 0, 0, 0) ->
  render w = V1.render w.
Proof.
  intros Hc Hz. unfold V1.render. open_world w. subst.
  injection Hz as -> -> -> ->. run.
  rewrite !Z.add_0_l, !Z.add_0_r. reflexivity.
Qed.

Lemma render_extends_v1_witness :
  exec render (exec (nextFrame ;; nextFrame) page)
  = exec V1.render (exec (nextFrame ;; nextFrame) page).
Proof.
  unfold exec at 1 3.
  rewrite (render_extends_v1 (exec (nextFrame ;; nextFrame) page));
    reflexivity.
Defined.

(** ** What auto-detection leaves alone *)

(** X15.  [triggerAutoDetect] does not undo a manual offset or spacing.
    For [totalFrames >= 1] it returns normally, switches auto-detect on and
    sets the grid and the frame and canvas size; the offsets, the spacing,
    [totalFrames], the frame index and the playback fields stay, so the
    frame it draws still starts at the offsets: frame 0 is drawn from
    [(offsetX, offsetY)]. *)
Theorem autodetect_keeps_offsets (w : World) :
  let s := this w in
  let s' := this (exec triggerAutoDetect w) in
  1 <= totalFrames s ->
  result triggerAutoDetect w = Normal tt /\
  autoDetect s' = true /\
  (offsetX s', offsetY s', spacingX s', spacingY s')
  = (offsetX s, offsetY s, spacingX s, spacingY s) /\
  (totalFrames s', currentFrame s') = (totalFrames s, currentFrame s) /\
  (isPlaying s', fps s', frameInterval s', lastFrameTime s', animationId s')
  = (isPlaying s, fps s, frameInterval s, lastFrameTime s, animationId s) /\
  (canvas s' = mkDim (frameWidth s') (frameHeight s')) /\
  exists d,
    sourceRect (exec triggerAutoDetect w) 0 = Some d /\
    (sx d, sy d) = (offsetX s, offsetY s).
Proof.
  intros s s' Htf. subst s s'.
  pose proof (sourceRect_eq (exec triggerAutoDetect w) 0) as R.
  cbv zeta in R. unfold JS.rem in R. rewrite floor_div in R.
  revert R. open_world w.
  match goal with
  | |- context [findBestGridLayout ?tf ?iw ?ih] =>
      destruct (findBestGridLayout_some tf iw ih Htf)
        as (best & E & _ & (Hc & _) & _)
  end.
  rewrite E. run. intros R.
  rewrite Z.rem_0_l, Z.div_0_l, !Z.mul_0_l, !Z.add_0_r in R by lia.
  repeat split. eexists. split; [exact R|]. reflexivity.
Qed.

Lemma autodetect_keeps_offsets_witness :
  let w := exec (setManualGrid 8 4 200 200 24 16 8 8) pageLoaded in
  exists d,
    sourceRect (exec triggerAutoDetect w) 0 = Some d /\
    (sx d, sy d) = (offsetX (this w), offsetY (this w)).
Proof.
  intros w.
  apply (autodetect_keeps_offsets w). vm_compute. discriminate.
Defined.
